(** * git_sync.py: command execution and conflict resolution

    A shallow embedding of [src/git_sync.py]: the helper [run], the
    detection predicate [has_conflict_markers] and the line walk of
    [resolve_file], together with the properties the specification
    states about them.

    Conventions.
    - A Python [str] is a list of Unicode code points ([N]).  A file on
      disk is represented by the code points its UTF-8 bytes decode to;
      undecodable files (on which [read_text] raises before any line is
      looked at) are outside the model.
    - [lines[i]] is stdpp's list lookup [lines !! i]; an index out of range
      is Python's [IndexError].
    - The [while] loops are recursive functions with a step budget.  The
      entry points supply a budget of [length lines] steps and the
      development proves that this budget is never exhausted. *)

From Stdlib Require Import NArith String Ascii.
From Stdlib.Strings Require Import Byte.
From stdpp Require Import base tactics option list.

Local Open Scope N_scope.
Local Open Scope nat_scope.

(** ** Text *)

Module Text.

Definition char := N.
Definition str := list char.

(** A literal of the source, character by character. *)
Definition lit (s : string) : str := map N_of_ascii (list_ascii_of_string s).

Definition LF : char := 10%N.
Definition CR : char := 13%N.

(** [s.startswith(prefix)] *)
Fixpoint startswith (prefix s : str) : bool :=
  match prefix, s with
  | [], _ => true
  | _ :: _, [] => false
  | p :: prefix', c :: s' => (p =? c)%N && startswith prefix' s'
  end.

(** [needle in hay] for two strings: does [needle] occur somewhere in
    [hay]? *)
Fixpoint contains (needle hay : str) : bool :=
  startswith needle hay ||
  match hay with
  | [] => false
  | _ :: hay' => contains needle hay'
  end.

(** The characters at which [str.splitlines] ends a line: LF, VT, FF, CR,
    FS, GS, RS, NEL, LINE SEPARATOR and PARAGRAPH SEPARATOR. *)
Definition is_linebreak (c : char) : bool :=
  match c with
  | 10%N | 11%N | 12%N | 13%N | 28%N | 29%N | 30%N
  | 133%N | 8232%N | 8233%N => true
  | _ => false
  end.

(** [s.splitlines(keepends=True)]: every line keeps its terminator, CR LF
    counts as one terminator, and a final line without a terminator is
    kept as it is. *)
Fixpoint splitlines (s : str) : list str :=
  match s with
  | [] => []
  | c :: rest =>
      if (c =? CR)%N then
        match rest with
        | c' :: rest' =>
            if (c' =? LF)%N then [CR; LF] :: splitlines rest'
            else [CR] :: splitlines rest
        | [] => [[CR]]
        end
      else if is_linebreak c then [c] :: splitlines rest
      else
        match splitlines rest with
        | [] => [[c]]
        | l :: ls => (c :: l) :: ls
        end
  end.

(** What a text-mode read ([open] with the default [newline=None], which
    is how [Path.read_text] opens the file) does to line endings: CR LF
    and a lone CR both arrive as LF. *)
Fixpoint universal_newlines (s : str) : str :=
  match s with
  | [] => []
  | c :: rest =>
      if (c =? CR)%N then
        match rest with
        | c' :: rest' =>
            if (c' =? LF)%N then LF :: universal_newlines rest'
            else LF :: universal_newlines rest
        | [] => [LF]
        end
      else c :: universal_newlines rest
  end.

(** [path.read_text(encoding="utf-8")] on a file holding [disk]. *)
Definition read_text (disk : str) : str := universal_newlines disk.

(** ["".join(lines)] *)
Definition join (lines : list str) : str := concat lines.

(** *** The shape of the lines of a text without CR

    A line is [plain] when it holds no line break, and [terminated] when it
    is a plain text followed by one line break.  In a [line_list] every
    line is terminated, except that the last one may be a plain text that
    is not empty. *)
Definition plain (l : str) : Prop := Forall (fun c => is_linebreak c = false) l.

Definition terminated (l : str) : Prop :=
  exists body b, l = body ++ [b] /\ plain body /\ is_linebreak b = true /\ b <> CR.

Inductive line_list : list str -> Prop :=
  | line_list_nil : line_list []
  | line_list_last l : l <> [] -> plain l -> line_list [l]
  | line_list_cons l ls : terminated l -> line_list ls -> line_list (l :: ls).

End Text.

Import Text.

(** ** Command Executor *)

Module Executor.

(** What a process writes and what the operating system is handed:
    sequences of bytes. *)
Definition bytes := list Byte.byte.

(** A captured stream: a [str] when [text=True] was passed, [bytes]
    otherwise. *)
Inductive stream :=
  | Text (s : str)
  | Binary (b : bytes).

(** [subprocess.CompletedProcess]; [stdout] and [stderr] are [None] when
    the stream was not captured. *)
Record CompletedProcess := {
  args : str;
  returncode : Z;
  stdout : option stream;
  stderr : option stream
}.

(** The exceptions [subprocess.run] raises here.  Before any process
    exists, the command is converted for the operating system:
    [UnicodeEncodeError] when it cannot be encoded, [ValueError] when the
    encoded command holds a null byte.  [OSError] when the process (the
    shell, because of [shell=True]) cannot be started.  Once the process
    has exited: [UnicodeDecodeError] when a stream captured with
    [text=True] cannot be decoded, and [CalledProcessError] when [check]
    is set and the exit status is not zero. *)
Inductive exn :=
  | CalledProcessError (code : Z) (cmd : str) (output err : option stream)
  | OSError
  | ValueError
  | UnicodeEncodeError
  | UnicodeDecodeError.

Inductive outcome :=
  | Returned (r : CompletedProcess)
  | Raised (e : exn).

(** What the operating system does with the shell and a command line: the
    process runs and exits with a status and what it wrote on its two
    streams, or it cannot be started. *)
Inductive process :=
  | Exited (code : Z) (out err : bytes)
  | NotLaunched.

(** The environment of a call (a POSIX system): the encoder of the file
    system encoding ([None] where it fails), the shell, and the decoder
    of the locale's encoding ([None] where it fails). *)
Record system := {
  fsencode : str -> option bytes;
  spawn : bytes -> process;
  decode : bytes -> option str
}.

Definition has_nul (raw : bytes) : bool := existsb (Byte.eqb Byte.x00) raw.

(** A captured stream as [communicate] hands it over: with [text=True] it
    is decoded and CR LF and CR are replaced by LF. *)
Definition captured (os : system) (text : bool) (b : bytes) : option stream :=
  if text then
    match decode os b with
    | Some s => Some (Text (universal_newlines s))
    | None => None
    end
  else Some (Binary b).

(** The end of [subprocess.run]: [if check and retcode: raise
    CalledProcessError(...)], else the [CompletedProcess]. *)
Definition completed (cmd : str) (check : bool) (code : Z)
    (o e : option stream) : outcome :=
  if check && negb (code =? 0)%Z
  then Raised (CalledProcessError code cmd o e)
  else Returned {| args := cmd; returncode := code; stdout := o; stderr := e |}.

(** [subprocess.run(cmd, shell=True, check=check,
    capture_output=capture_output, text=text)] *)
Definition subprocess_run (os : system) (cmd : str)
    (check capture_output text : bool) : outcome :=
  match fsencode os cmd with
  | None => Raised UnicodeEncodeError
  | Some raw =>
      if has_nul raw then Raised ValueError
      else
        match spawn os raw with
        | NotLaunched => Raised OSError
        | Exited code out err =>
            if capture_output then
              match captured os text out, captured os text err with
              | Some o, Some e => completed cmd check code (Some o) (Some e)
              | _, _ => Raised UnicodeDecodeError
              end
            else completed cmd check code None None
        end
  end.

(** [def run(cmd, *, check=True, capture=False)]: with [capture] the call
    passes [capture_output=True, text=True], without it neither.  The echo
    of the command ([print(">", cmd)]) does not take part in the result
    and is left out. *)
Definition run (os : system) (cmd : str) (check capture : bool) : outcome :=
  if capture then subprocess_run os cmd check true true
  else subprocess_run os cmd check false false.

(** The keyword defaults of [run]. *)
Definition check_default : bool := true.
Definition capture_default : bool := false.

End Executor.

(** ** Conflict scanning and resolution *)

Module Conflict.

(** The literals of the source. *)
Definition START : str := Eval vm_compute in lit "<<<<<<< ".
Definition SEPARATOR : str := Eval vm_compute in lit "=======".
Definition END_ : str := Eval vm_compute in lit ">>>>>>> ".

(** [def has_conflict_markers(text): return "<<<<<<<" in text] *)
Definition DETECT : str := Eval vm_compute in lit "<<<<<<<".

Definition has_conflict_markers (text : str) : bool :=
  contains DETECT text.

(** The three tests of the line walk. *)
Definition is_start (line : str) : bool := startswith START line.
Definition is_separator (line : str) : bool := startswith SEPARATOR line.
Definition is_end (line : str) : bool := startswith END_ line.

Definition is_marker (line : str) : bool :=
  is_start line || is_separator line || is_end line.

Inductive exn := IndexError.

(** The result of a loop: it finishes with a value, raises, or the step
    budget of the model is used up. *)
Inductive res (A : Type) :=
  | Done (a : A)
  | Raise (e : exn)
  | OutOfBudget.
Arguments Done {A} a.
Arguments Raise {A} e.
Arguments OutOfBudget {A}.

Definition bind {A B} (m : res A) (k : A -> res B) : res B :=
  match m with
  | Done a => k a
  | Raise e => Raise e
  | OutOfBudget => OutOfBudget
  end.

Notation "x <- m ;; k" := (bind m (fun x => k))
  (at level 100, m at next level, right associativity).

(** [while not p(lines[i]): i += 1], returning the final [i].  Reading
    [lines[i]] past the end raises [IndexError]. *)
Fixpoint find_from_fuel (fuel : nat) (p : str -> bool) (lines : list str)
    (i : nat) : res nat :=
  match lines !! i with
  | None => Raise IndexError
  | Some l =>
      if p l then Done i
      else match fuel with
           | O => OutOfBudget
           | S fuel' => find_from_fuel fuel' p lines (S i)
           end
  end.

Definition find_from (p : str -> bool) (lines : list str) (i : nat) : res nat :=
  find_from_fuel (length lines) p lines i.

(** [lines[a:b]] for [0 <= a] and [0 <= b] *)
Definition slice (lines : list str) (a b : nat) : list str :=
  take (b - a) (drop a lines).

(** The body of [if line.startswith("<<<<<<< "):] up to [theirs_end = i]:
    the values of [ours_start], [theirs_start] and [theirs_end].  The
    first search starts on the start marker line itself, the second on the
    separator line. *)
Definition locate (lines : list str) (i : nat) : res (nat * nat * nat) :=
  let ours_start := i + 1 in
  i1 <- find_from is_separator lines i ;;
  let theirs_start := i1 + 1 in
  i2 <- find_from is_end lines i1 ;;
  let theirs_end := i2 in
  Done (ours_start, theirs_start, theirs_end).

(** The specification's [ConflictRegion] (the file path is left out: all
    regions of one scan are regions of the file scanned).
    [ours_start_line] is the index of the start marker line,
    [separator_line] of the separator and [theirs_end_line] of the end
    marker; the two texts are the slices the source shows to the user,
    [lines[ours_start : theirs_start - 1]] and
    [lines[theirs_start : theirs_end]]. *)
Record ConflictRegion := {
  ours_start_line : nat;
  separator_line : nat;
  theirs_end_line : nat;
  ours_text : list str;
  theirs_text : list str
}.

Definition region_at (lines : list str) (b : nat * nat * nat) : ConflictRegion :=
  let '(ours_start, theirs_start, theirs_end) := b in
  {| ours_start_line := ours_start - 1;
     separator_line := theirs_start - 1;
     theirs_end_line := theirs_end;
     ours_text := slice lines ours_start (theirs_start - 1);
     theirs_text := slice lines theirs_start theirs_end |}.

(** The specification's [ResolutionChoice]; the answers ["1"], ["2"] and
    ["b"] of the prompt. *)
Inductive ResolutionChoice := TakeOurs | TakeTheirs | TakeBoth.

(** The resolution policy: the answer the prompt loop ends with for a
    region. *)
Definition policy := ConflictRegion -> ResolutionChoice.

(** Modelled from the spec: the source file ends inside the branch
    [if choice == "1": new_lines.extend(lines[ours_start]; what is appended
    for each choice is missing.  "ours_text if TakeOurs, theirs_text if
    TakeTheirs, or ours_text followed by theirs_text if TakeBoth". *)
Definition replacement (c : ResolutionChoice) (r : ConflictRegion) : list str :=
  match c with
  | TakeOurs => ours_text r
  | TakeTheirs => theirs_text r
  | TakeBoth => ours_text r ++ theirs_text r
  end.

(** Modelled from the spec: the source ends before the point where the
    walk [while i < len(lines)] of [resolve_file] goes on after a region;
    "continue until a line beginning with the theirs marker, closing the
    region", so the walk resumes on the line after the end marker.  The
    head of the loop, the test on the line and the search for the two
    other markers ([locate]) are the source's.  The function returns the
    regions the walk finds, in file order. *)
Fixpoint scan_loop (fuel : nat) (lines : list str) (i : nat)
    : res (list ConflictRegion) :=
  match lines !! i with
  | None => Done []
  | Some line =>
      match fuel with
      | O => OutOfBudget
      | S fuel' =>
          if is_start line then
            b <- locate lines i ;;
            rs <- scan_loop fuel' lines (S (theirs_end_line (region_at lines b))) ;;
            Done (region_at lines b :: rs)
          else scan_loop fuel' lines (S i)
      end
  end.

Definition scan_lines (lines : list str) : res (list ConflictRegion) :=
  scan_loop (length lines) lines 0.

(** Modelled from the spec: the source ends before the [else] branch of
    the walk and before the end of the region branch; "replacing each
    region's full span (markers and separator included)" with the chosen
    text and "text outside any region is copied unchanged".  The head of
    the loop, the test on the line, the search for the markers and the
    accumulator [new_lines] are the source's. *)
Fixpoint resolve_loop (fuel : nat) (pol : policy) (lines : list str)
    (i : nat) (new_lines : list str) : res (list str) :=
  match lines !! i with
  | None => Done new_lines
  | Some line =>
      match fuel with
      | O => OutOfBudget
      | S fuel' =>
          if is_start line then
            b <- locate lines i ;;
            let r := region_at lines b in
            resolve_loop fuel' pol lines (S (theirs_end_line r))
              (new_lines ++ replacement (pol r) r)
          else resolve_loop fuel' pol lines (S i) (new_lines ++ [line])
      end
  end.

Definition resolve_lines (pol : policy) (lines : list str) : res (list str) :=
  resolve_loop (length lines) pol lines 0 [].

(** [lines = path.read_text(encoding="utf-8").splitlines(keepends=True)] *)
Definition lines_of (disk : str) : list str := splitlines (read_text disk).

(** The specification's [scan], on the content of the file. *)
Definition scan (disk : str) : res (list ConflictRegion) :=
  scan_lines (lines_of disk).

(** Modelled from the spec: the end of [resolve_file] is missing from the
    source.  "resolve(file_path, regions, policy) -> RewrittenFile | NoOp";
    "If a file has zero regions, resolve is a no-op and the file is left
    untouched". *)
Inductive resolution :=
  | RewrittenFile (text : str)
  | NoOp.

(** Modelled from the spec: the end of [resolve_file], after the walk, is
    missing from the source.  A file without regions is left as it is;
    otherwise the lines collected by the walk are joined and make the
    rewritten file. *)
Definition resolve (pol : policy) (disk : str) : res resolution :=
  regions <- scan disk ;;
  match regions with
  | [] => Done NoOp
  | _ :: _ =>
      new_lines <- resolve_lines pol (lines_of disk) ;;
      Done (RewrittenFile (join new_lines))
  end.

(** The content of the file once [resolve] is over. *)
Definition content_after (disk : str) (o : res resolution) : str :=
  match o with
  | Done (RewrittenFile text) => text
  | _ => disk
  end.

(** *** What the walk establishes

    A region is [delimited] in [lines] when its three indices name a line
    beginning with the start marker, the first later line beginning with
    the separator, and the first line after that beginning with the end
    marker, and its two texts are the lines strictly between them. *)
Record delimited (lines : list str) (r : ConflictRegion) : Prop := {
  dl_start :
    exists l, lines !! ours_start_line r = Some l /\ is_start l = true;
  dl_separator :
    exists l, lines !! separator_line r = Some l /\ is_separator l = true;
  dl_end :
    exists l, lines !! theirs_end_line r = Some l /\ is_end l = true;
  dl_order : ours_start_line r < separator_line r < theirs_end_line r;
  dl_first_separator : forall k l,
    ours_start_line r <= k < separator_line r ->
    lines !! k = Some l -> is_separator l = false;
  dl_first_end : forall k l,
    separator_line r <= k < theirs_end_line r ->
    lines !! k = Some l -> is_end l = false;
  dl_ours : ours_text r = slice lines (S (ours_start_line r)) (separator_line r);
  dl_theirs : theirs_text r = slice lines (S (separator_line r)) (theirs_end_line r)
}.

(** The regions lie one after the other, the first not before [pos]. *)
Fixpoint ordered_from (pos : nat) (rs : list ConflictRegion) : Prop :=
  match rs with
  | [] => True
  | r :: rs' => pos <= ours_start_line r /\ ordered_from (S (theirs_end_line r)) rs'
  end.

(** *** Well-formed files

    Every region that is opened has its separator and its end marker, and
    no line inside a region begins with the start marker: regions are
    closed and never nested. *)
Inductive zone := Outside | InOurs | InTheirs.

Fixpoint wf_from (z : zone) (lines : list str) : bool :=
  match lines with
  | [] => match z with Outside => true | _ => false end
  | l :: rest =>
      match z with
      | Outside =>
          if is_start l then wf_from InOurs rest
          else wf_from Outside rest
      | InOurs =>
          if is_separator l then wf_from InTheirs rest
          else negb (is_start l) && wf_from InOurs rest
      | InTheirs =>
          if is_end l then wf_from Outside rest
          else negb (is_start l) && wf_from InTheirs rest
      end
  end.

Definition well_formed (lines : list str) : bool := wf_from Outside lines.

(** *** The specification's description of the rewritten file

    "replacing each region's full span (markers and separator included)
    with" the chosen text; "text outside any region is copied unchanged".
    [pos] is the index of the first line not yet copied. *)
Fixpoint rebuild (pol : policy) (lines : list str) (pos : nat)
    (regions : list ConflictRegion) : list str :=
  match regions with
  | [] => drop pos lines
  | r :: rs =>
      slice lines pos (ours_start_line r) ++ replacement (pol r) r ++
      rebuild pol lines (S (theirs_end_line r)) rs
  end.

End Conflict.

(** ** Sample files *)

Module Samples.

(** A line of text followed by LF. *)
Definition ln (s : string) : str := lit s ++ [LF].

(** The bytes of an ASCII text. *)
Definition raw (s : string) : Executor.bytes :=
  map byte_of_ascii (list_ascii_of_string s).

(** The encoder and the decoder of ASCII text. *)
Fixpoint ascii_encode (s : str) : option Executor.bytes :=
  match s with
  | [] => Some []
  | c :: s' =>
      if (c <? 128)%N then
        match Byte.of_N c, ascii_encode s' with
        | Some b, Some r => Some (b :: r)
        | _, _ => None
        end
      else None
  end.

Definition ascii_decode (b : Executor.bytes) : option str :=
  if forallb (fun x => (Byte.to_N x <? 128)%N) b
  then Some (map Byte.to_N b) else None.

(** An environment for commands and outputs in ASCII, with a shell that
    does [sh]. *)
Definition ascii_system (sh : Executor.bytes -> Executor.process)
    : Executor.system :=
  {| Executor.fsencode := ascii_encode;
     Executor.spawn := sh;
     Executor.decode := ascii_decode |}.

(** One region between two ordinary lines. *)
Definition one_region : str :=
  ln "intro" ++
  ln "<<<<<<< HEAD" ++ ln "mine" ++
  ln "=======" ++ ln "yours" ++
  ln ">>>>>>> feature" ++
  ln "outro".

(** A start marker that is never followed by a separator. *)
Definition no_separator : str :=
  ln "<<<<<<< HEAD" ++ ln "mine".

(** Seven [<] in the middle of a line, and no marker line at all. *)
Definition marker_in_text : str :=
  ln "the region opens at the <<<<<<< line".

(** A region whose "ours" side is empty. *)
Definition empty_ours : str :=
  ln "<<<<<<< HEAD" ++ ln "=======" ++ ln "yours" ++ ln ">>>>>>> feature".

(** Lines ending in CR LF and in a lone CR before an LF-terminated
    region. *)
Definition mixed_endings : str :=
  lit "keep" ++ [CR; LF] ++ lit "old" ++ [CR] ++
  ln "<<<<<<< HEAD" ++ ln "mine" ++
  ln "=======" ++ ln "yours" ++
  ln ">>>>>>> feature".

(** A line beginning with the start marker inside the "ours" side. *)
Definition nested_start : str :=
  ln "<<<<<<< HEAD" ++ ln "<<<<<<< inner" ++
  ln "=======" ++ ln "yours" ++
  ln ">>>>>>> feature".

(** Seven [<] inside the "ours" side, not followed by a space. *)
Definition marker_in_payload : str :=
  ln "<<<<<<< HEAD" ++ ln "<<<<<<<mine" ++
  ln "=======" ++ ln "yours" ++
  ln ">>>>>>> feature".

(** Two regions, and a last line without a line break. *)
Definition two_regions : str :=
  ln "<<<<<<< HEAD" ++ ln "a1" ++ ln "=======" ++ ln "b1" ++
  ln ">>>>>>> feature" ++
  ln "between" ++
  ln "<<<<<<< HEAD" ++ ln "a2" ++ ln "=======" ++ ln "b2" ++
  ln ">>>>>>> feature" ++
  lit "end".

(** The three markers without anything after their seven characters. *)
Definition bare_markers : str :=
  ln "<<<<<<<" ++ ln "mine" ++ ln "=======" ++ ln "yours" ++ ln ">>>>>>>".

(** A start marker with a label, a bare separator, and an end marker that
    is bare followed by one with a label. *)
Definition bare_end_first : str :=
  ln "<<<<<<< HEAD" ++ ln "mine" ++ ln "=======" ++ ln "yours" ++
  ln ">>>>>>>" ++ ln ">>>>>>> feature".

End Samples.

(** ** When the walk comes to an end

    [closed lines] follows the walk over the lines: it looks for a start
    marker, then for a separator, then for an end marker, and answers
    whether the list ends outside a region. *)

Module Closing.
Import Conflict.

Fixpoint closed_from (z : zone) (lines : list str) : bool :=
  match lines with
  | [] => match z with Outside => true | _ => false end
  | l :: rest =>
      match z with
      | Outside =>
          if is_start l then closed_from InOurs rest
          else closed_from Outside rest
      | InOurs =>
          if is_separator l then closed_from InTheirs rest
          else closed_from InOurs rest
      | InTheirs =>
          if is_end l then closed_from Outside rest
          else closed_from InTheirs rest
      end
  end.

Definition closed (lines : list str) : bool := closed_from Outside lines.

End Closing.

(** ** The prompt *)

Module Prompt.

(** The characters [str.strip()] removes: those for which [str.isspace]
    holds. *)
Definition is_space (c : char) : bool :=
  ((9 <=? c) && (c <=? 13))%N || ((28 <=? c) && (c <=? 32))%N ||
  (c =? 133)%N || (c =? 160)%N || (c =? 5760)%N ||
  ((8192 <=? c) && (c <=? 8202))%N ||
  (c =? 8232)%N || (c =? 8233)%N || (c =? 8239)%N || (c =? 8287)%N ||
  (c =? 12288)%N.

Fixpoint lstrip (s : str) : str :=
  match s with
  | [] => []
  | c :: s' => if is_space c then lstrip s' else s
  end.

(** [s.strip()] *)
Definition strip (s : str) : str := rev (lstrip (rev (lstrip s))).

(** [a == b] for two strings *)
Fixpoint str_eqb (a b : str) : bool :=
  match a, b with
  | [], [] => true
  | c :: a', d :: b' => (c =? d)%N && str_eqb a' b'
  | _, _ => false
  end.

(** [choice in {"1", "2", "b"}] *)
Definition is_choice (choice : str) : bool :=
  str_eqb choice (lit "1") || str_eqb choice (lit "2") || str_eqb choice (lit "b").

(** The end of the prompt loop: an answer was accepted and the lines not
    yet read remain on the standard input, or the standard input ended and
    [input] raised [EOFError]. *)
Inductive prompt_result :=
  | Chosen (choice : str) (rest : list str)
  | EOFError.

(** [choice = ""; while choice not in {"1", "2", "b"}:
       choice = input("Choose: ...").strip().lower()]
    on a standard input that holds the lines [stdin], each without its
    line break, as [input] returns them.  The empty string is not one of
    the three answers, so the first line is always read.  [lower] stands
    for [str.lower]. *)
Fixpoint prompt (lower : str -> str) (stdin : list str) : prompt_result :=
  match stdin with
  | [] => EOFError
  | raw :: rest =>
      let choice := lower (strip raw) in
      if is_choice choice then Chosen choice rest
      else prompt lower rest
  end.

(** [str.lower] on the letters A to Z; the other characters of ASCII have
    no case. *)
Definition ascii_lower (s : str) : str :=
  map (fun c => if ((65 <=? c) && (c <=? 90))%N then (c + 32)%N else c) s.

End Prompt.

(** ** The walk with its prompts *)

Module Interactive.
Import Conflict Prompt.

(** How the walk of [resolve_file] ends: it reaches the end of the file
    and leaves lines of the standard input unread, or one of the two
    searches raises [IndexError], or [input] raises [EOFError], or the
    step budget of the model is used up. *)
Inductive ending :=
  | Ended (unread : list str)
  | IndexErrorRaised
  | EOFErrorRaised
  | BudgetUsedUp.

(** Modelled from the spec: where the walk goes on after a region is
    missing from the source and is as in [scan_loop], the line after the
    end marker.  The head of the loop, the test on the line, the two
    searches and the prompt that follows them are the source's, in the
    order of the source. *)
Fixpoint walk_loop (fuel : nat) (lower : str -> str) (lines : list str)
    (i : nat) (stdin : list str) : ending :=
  match lines !! i with
  | None => Ended stdin
  | Some line =>
      match fuel with
      | O => BudgetUsedUp
      | S fuel' =>
          if is_start line then
            match locate lines i with
            | Done b =>
                match prompt lower stdin with
                | Chosen _ rest =>
                    walk_loop fuel' lower lines
                      (S (theirs_end_line (region_at lines b))) rest
                | EOFError => EOFErrorRaised
                end
            | Raise _ => IndexErrorRaised
            | OutOfBudget => BudgetUsedUp
            end
          else walk_loop fuel' lower lines (S i) stdin
      end
  end.

Definition walk (lower : str -> str) (lines stdin : list str) : ending :=
  walk_loop (length lines) lower lines 0 stdin.

(** The number of elements of a list that satisfy a test. *)
Fixpoint count (p : str -> bool) (ls : list str) : nat :=
  match ls with
  | [] => 0
  | l :: ls' => (if p l then 1 else 0) + count p ls'
  end.

(** Is this line of the standard input accepted by the prompt? *)
Definition accepted (lower : str -> str) (x : str) : bool :=
  is_choice (lower (strip x)).

End Interactive.

Import Conflict Samples.

(** * Properties *)

(** ** Text *)

Section TextFacts.

Lemma startswith_app (p rest : str) : startswith p (p ++ rest) = true.
Proof.
  induction p as [|c p IH]; simpl; [done|].
  by rewrite N.eqb_refl.
Qed.

Lemma startswith_inv (p s : str) :
  startswith p s = true -> exists rest, s = p ++ rest.
Proof.
  revert s. induction p as [|c p IH]; intros s H; simpl in *.
  - by exists s.
  - destruct s as [|d s]; [done|].
    apply andb_true_iff in H as [Hc Hp]. apply N.eqb_eq in Hc. subst d.
    destruct (IH _ Hp) as [rest ->]. by exists rest.
Qed.

Lemma startswith_iff (p s : str) :
  startswith p s = true <-> exists rest, s = p ++ rest.
Proof.
  split; [apply startswith_inv|]. intros [rest ->]. apply startswith_app.
Qed.

Lemma contains_iff (needle hay : str) :
  contains needle hay = true <-> exists a b, hay = a ++ needle ++ b.
Proof.
  induction hay as [|c hay IH]; simpl.
  - rewrite orb_false_r. split.
    + intros H. apply startswith_inv in H as [rest H]. by exists [], rest.
    + intros (a & b & H). symmetry in H.
      apply app_eq_nil in H as [-> H]. apply app_eq_nil in H as [-> _].
      done.
  - rewrite orb_true_iff, IH. split.
    + intros [H|(a & b & ->)].
      * apply startswith_inv in H as [rest H]. by exists [], rest.
      * by exists (c :: a), b.
    + intros (a & b & H). destruct a as [|a0 a].
      * left. simpl in H. rewrite H. apply startswith_app.
      * right. simpl in H. injection H as _ ->. by exists a, b.
Qed.

Lemma join_splitlines (s : str) : join (splitlines s) = s.
Proof.
  unfold join. induction s as [s IH] using (induction_ltof1 _ (@length char)).
  unfold ltof in IH. destruct s as [|c rest]; [done|]. simpl.
  destruct (c =? CR)%N eqn:Hc.
  - apply N.eqb_eq in Hc. subst c. destruct rest as [|c' rest'].
    + done.
    + destruct (c' =? LF)%N eqn:Hc'.
      * apply N.eqb_eq in Hc'. subst c'. simpl.
        rewrite (IH rest') by (simpl; lia). done.
      * cbn [concat app]. rewrite (IH (c' :: rest')) by (simpl; lia). done.
  - destruct (is_linebreak c).
    + simpl. rewrite (IH rest) by (simpl; lia). done.
    + specialize (IH rest ltac:(simpl; lia)).
      destruct (splitlines rest) as [|l ls]; simpl in *.
      * by rewrite <- IH.
      * by rewrite <- IH.
Qed.

Lemma universal_newlines_no_CR (s : str) : CR ∉ universal_newlines s.
Proof.
  induction s as [s IH] using (induction_ltof1 _ (@length char)).
  unfold ltof in IH. destruct s as [|c rest]; simpl.
  - apply not_elem_of_nil.
  - destruct (c =? CR)%N eqn:Hc.
    + destruct rest as [|c' rest'].
      * intros H. apply list_elem_of_singleton in H. done.
      * destruct (c' =? LF)%N.
        -- apply not_elem_of_cons. split; [done|]. apply IH. simpl. lia.
        -- apply not_elem_of_cons. split; [done|]. apply IH. simpl. lia.
    + apply not_elem_of_cons. split.
      * apply N.eqb_neq in Hc. congruence.
      * apply IH. simpl. lia.
Qed.

Lemma universal_newlines_id (s : str) : CR ∉ s -> universal_newlines s = s.
Proof.
  induction s as [|c rest IH]; intros H; simpl; [done|].
  apply not_elem_of_cons in H as [Hc Hrest].
  destruct (c =? CR)%N eqn:E.
  - apply N.eqb_eq in E. congruence.
  - by rewrite IH.
Qed.

Lemma plain_not_CR (c : char) : is_linebreak c = false -> (c =? CR)%N = false.
Proof.
  intros H. apply N.eqb_neq. intros ->. done.
Qed.

Lemma splitlines_terminated (l s : str) :
  terminated l -> splitlines (l ++ s) = l :: splitlines s.
Proof.
  intros (body & b & -> & Hbody & Hb & HCR).
  induction Hbody as [|c body Hc _ IH]; simpl.
  - apply N.eqb_neq in HCR. rewrite HCR, Hb. done.
  - rewrite (plain_not_CR c Hc), Hc.
    simpl in IH. rewrite IH. done.
Qed.

Lemma splitlines_plain (l : str) : l <> [] -> plain l -> splitlines l = [l].
Proof.
  intros Hne Hl. induction Hl as [|c l Hc Hl IH]; [done|]. simpl.
  rewrite (plain_not_CR c Hc), Hc.
  destruct l as [|d l]; [done|]. rewrite IH; done.
Qed.

Lemma terminated_cons (c : char) (l : str) :
  is_linebreak c = false -> terminated l -> terminated (c :: l).
Proof.
  intros Hc (body & b & -> & Hbody & Hb & HCR).
  exists (c :: body), b. repeat split; try done. by constructor.
Qed.

Lemma splitlines_line_list (s : str) : CR ∉ s -> line_list (splitlines s).
Proof.
  induction s as [|c rest IH]; intros H; simpl; [constructor|].
  apply not_elem_of_cons in H as [Hc Hrest].
  specialize (IH Hrest).
  destruct (c =? CR)%N eqn:E; [apply N.eqb_eq in E; congruence|].
  destruct (is_linebreak c) eqn:Hb.
  - constructor; [|done]. exists [], c. repeat split; try done. constructor.
  - destruct (splitlines rest) as [|l ls].
    + apply line_list_last; [done|]. by repeat constructor.
    + inversion IH; subst.
      * apply line_list_last; [done|]. by constructor.
      * apply line_list_cons; [|done]. by apply terminated_cons.
Qed.

Lemma splitlines_join (ls : list str) : line_list ls -> splitlines (join ls) = ls.
Proof.
  unfold join. induction 1 as [|l Hne Hl|l ls Hl _ IH]; simpl.
  - done.
  - rewrite app_nil_r. by apply splitlines_plain.
  - rewrite splitlines_terminated by done. by rewrite IH.
Qed.

Lemma line_list_app (xs ys : list str) :
  Forall terminated xs -> line_list ys -> line_list (xs ++ ys).
Proof.
  induction 1; simpl; [done|]. intros. constructor; auto.
Qed.

Lemma line_list_drop (n : nat) (ls : list str) :
  line_list ls -> line_list (drop n ls).
Proof.
  intros H. revert n.
  induction H as [|l Hne Hl|l ls Hl Hls IH]; intros [|n]; simpl.
  all: try (constructor; done).
  - rewrite drop_nil. constructor.
  - apply IH.
Qed.

Lemma line_list_lookup (ls : list str) (i : nat) (l : str) :
  line_list ls -> ls !! i = Some l -> S i < length ls -> terminated l.
Proof.
  intros H. revert i. induction H as [|l' Hne Hl|l' ls Hl Hls IH]; intros i Hi Hlen.
  - done.
  - simpl in Hlen. lia.
  - destruct i as [|i]; simpl in *.
    + by injection Hi as ->.
    + apply (IH i); [done|lia].
Qed.

End TextFacts.

(** ** Command Executor *)

Module ExecutorFacts.
Import Executor.

Lemma run_unfold (os : system) (cmd : str) (check capture : bool) :
  run os cmd check capture = subprocess_run os cmd check capture capture.
Proof. by destruct capture. Qed.

(** A command that launches and exits, without capture. *)
Lemma run_launched_plain (os : system) (cmd : str) (raw : bytes) (check : bool)
    (code : Z) (out err : bytes) :
  fsencode os cmd = Some raw -> has_nul raw = false ->
  spawn os raw = Exited code out err ->
  run os cmd check false = completed cmd check code None None.
Proof.
  intros Henc Hnul Hsp. unfold run, subprocess_run.
  by rewrite Henc, Hnul, Hsp.
Qed.

(** A command that launches and exits, with capture. *)
Lemma run_launched_captured (os : system) (cmd : str) (raw : bytes)
    (check : bool) (code : Z) (out err : bytes) :
  fsencode os cmd = Some raw -> has_nul raw = false ->
  spawn os raw = Exited code out err ->
  run os cmd check true =
    match captured os true out, captured os true err with
    | Some o, Some e => completed cmd check code (Some o) (Some e)
    | _, _ => Raised UnicodeDecodeError
    end.
Proof.
  intros Henc Hnul Hsp. unfold run, subprocess_run.
  by rewrite Henc, Hnul, Hsp.
Qed.

(** C1, as stated, fails: with the default [check=True] a command that
    launches and exits with status 1 makes [run] raise
    [CalledProcessError]; no result is returned. *)
Lemma run_default_nonzero_raises :
  run (ascii_system (fun _ => Exited 1 [] (raw "rejected")))
      (lit "git push origin main") check_default capture_default
    = Raised (CalledProcessError 1 (lit "git push origin main") None None) /\
  forall r,
    run (ascii_system (fun _ => Exited 1 [] (raw "rejected")))
        (lit "git push origin main") check_default capture_default
      <> Returned r.
Proof.
  split; [vm_compute; reflexivity|]. intros r H. vm_compute in H. discriminate H.
Qed.

(** C1, amended: for a command that launches and exits with status
    [code].  Without capture, [run] returns a result carrying [code] when
    [check=False] or [code] is zero, and raises [CalledProcessError]
    carrying [code] when [check=True] (the default) and [code] is not
    zero.  With [capture=True] the same holds when the two captured
    streams can be decoded, the result or the exception then carrying the
    decoded texts with CR LF and CR replaced by LF; when one of them
    cannot be decoded, [run] raises [UnicodeDecodeError] whatever [check]
    and [code] are.  No other exception is raised for such a command. *)
Theorem run_exit_status (os : system) (cmd : str) (raw : bytes)
    (code : Z) (out err : bytes) :
  fsencode os cmd = Some raw -> has_nul raw = false ->
  spawn os raw = Exited code out err ->
  run os cmd false false
    = Returned {| args := cmd; returncode := code;
                  stdout := None; stderr := None |} /\
  (code = 0%Z ->
     run os cmd true false
       = Returned {| args := cmd; returncode := code;
                     stdout := None; stderr := None |}) /\
  (code <> 0%Z ->
     run os cmd true false = Raised (CalledProcessError code cmd None None)) /\
  (forall o e,
     decode os out = Some o -> decode os err = Some e ->
     run os cmd false true
       = Returned {| args := cmd; returncode := code;
                     stdout := Some (Text (universal_newlines o));
                     stderr := Some (Text (universal_newlines e)) |} /\
     (code = 0%Z ->
        run os cmd true true
          = Returned {| args := cmd; returncode := code;
                        stdout := Some (Text (universal_newlines o));
                        stderr := Some (Text (universal_newlines e)) |}) /\
     (code <> 0%Z ->
        run os cmd true true
          = Raised (CalledProcessError code cmd
                      (Some (Text (universal_newlines o)))
                      (Some (Text (universal_newlines e)))))) /\
  (decode os out = None \/ decode os err = None ->
     forall check, run os cmd check true = Raised UnicodeDecodeError) /\
  (forall check capture,
     run os cmd check capture <> Raised OSError /\
     run os cmd check capture <> Raised ValueError /\
     run os cmd check capture <> Raised UnicodeEncodeError).
Proof.
  intros Henc Hnul Hsp.
  pose proof (fun check => run_launched_plain os cmd raw check code out err
                             Henc Hnul Hsp) as Hplain.
  pose proof (fun check => run_launched_captured os cmd raw check code out err
                             Henc Hnul Hsp) as Hcap.
  split; [by rewrite Hplain|].
  split; [intros ->; by rewrite Hplain|].
  split.
  { intros Hne. rewrite Hplain. unfold completed.
    apply Z.eqb_neq in Hne. by rewrite Hne. }
  split.
  { intros o e Ho He. rewrite !Hcap. unfold captured. rewrite Ho, He.
    split; [done|]. split; [by intros ->|].
    intros Hne. unfold completed. apply Z.eqb_neq in Hne. by rewrite Hne. }
  split.
  { intros Hnone check. rewrite Hcap. unfold captured.
    destruct Hnone as [Hnone|Hnone]; rewrite Hnone; [done|].
    by destruct (decode os out). }
  intros check [|].
  - rewrite Hcap.
    destruct (captured os true out), (captured os true err);
      unfold completed; try done.
    by destruct (check && negb (code =? 0)%Z).
  - rewrite Hplain. unfold completed.
    by destruct (check && negb (code =? 0)%Z).
Qed.

Lemma run_exit_status_witness :
  fsencode (ascii_system (fun _ => Exited 1 [] (raw "rejected")))
           (lit "git push origin main")
    = Some (raw "git push origin main") /\
  has_nul (raw "git push origin main") = false /\
  run (ascii_system (fun _ => Exited 1 [] (raw "rejected")))
      (lit "git push origin main") false false
    = Returned {| args := lit "git push origin main"; returncode := 1;
                  stdout := None; stderr := None |}.
Proof.
  split; [vm_compute; reflexivity|]. split; [vm_compute; reflexivity|].
  apply (run_exit_status (ascii_system (fun _ => Exited 1 [] (raw "rejected")))
           (lit "git push origin main") (raw "git push origin main")
           1 [] (raw "rejected")).
  - vm_compute. reflexivity.
  - vm_compute. reflexivity.
  - reflexivity.
Defined.

(** Captured output that cannot be decoded: [run] raises
    [UnicodeDecodeError] even with [check=False] and status 0. *)
Example run_capture_undecodable :
  run (ascii_system (fun _ => Exited 0 [Byte.xff] [])) (lit "git log")
      false true
    = Raised UnicodeDecodeError.
Proof.
  vm_compute. reflexivity.
Qed.

(** A command with a null character is never launched. *)
Example run_null_character :
  run (ascii_system (fun _ => Exited 0 [] [])) (lit "git" ++ [0%N])
      false false
    = Raised ValueError.
Proof.
  vm_compute. reflexivity.
Qed.

(** C9: when [run] is called with [capture] left at its default and
    returns, the result carries neither the standard output nor the
    standard error of the command: both fields are [None]. *)
Theorem run_capture_default_none (os : system) (cmd : str) (check : bool)
    (r : CompletedProcess) :
  run os cmd check capture_default = Returned r ->
  stdout r = None /\ stderr r = None.
Proof.
  unfold capture_default, run, subprocess_run.
  destruct (fsencode os cmd) as [raw|]; [|done].
  destruct (has_nul raw); [done|].
  destruct (spawn os raw) as [code out err|]; [|done].
  unfold completed.
  destruct (check && negb (code =? 0)%Z); [done|].
  intros [= <-]. done.
Qed.

Lemma run_capture_default_none_witness :
  run (ascii_system (fun _ => Exited 0 (raw "ok") [])) (lit "git status")
      true capture_default
    = Returned {| args := lit "git status"; returncode := 0;
                  stdout := None; stderr := None |} /\
  stdout {| args := lit "git status"; returncode := 0;
            stdout := None; stderr := None |} = None /\
  stderr {| args := lit "git status"; returncode := 0;
            stdout := None; stderr := None |} = None.
Proof.
  split; [vm_compute; reflexivity|].
  apply (run_capture_default_none
           (ascii_system (fun _ => Exited 0 (raw "ok") []))
           (lit "git status") true).
  vm_compute. reflexivity.
Defined.

(** With [capture=True] both streams are in the result. *)
Lemma run_capture_set (os : system) (cmd : str) (check : bool)
    (r : CompletedProcess) :
  run os cmd check true = Returned r ->
  is_Some (stdout r) /\ is_Some (stderr r).
Proof.
  unfold run, subprocess_run.
  destruct (fsencode os cmd) as [raw|]; [|done].
  destruct (has_nul raw); [done|].
  destruct (spawn os raw) as [code out err|]; [|done].
  destruct (captured os true out) as [o|]; [|done].
  destruct (captured os true err) as [e|]; [|done].
  unfold completed.
  destruct (check && negb (code =? 0)%Z); [done|].
  intros [= <-]. simpl. eauto.
Qed.

End ExecutorFacts.

(** ** Conflict scanning and resolution *)

Section Markers.

Lemma start_not_separator (l : str) : is_start l = true -> is_separator l = false.
Proof.
  intros H. apply startswith_inv in H as [rest ->]. reflexivity.
Qed.

Lemma start_not_end (l : str) : is_start l = true -> is_end l = false.
Proof.
  intros H. apply startswith_inv in H as [rest ->]. reflexivity.
Qed.

Lemma separator_not_end (l : str) : is_separator l = true -> is_end l = false.
Proof.
  intros H. apply startswith_inv in H as [rest ->]. reflexivity.
Qed.

Lemma not_marker_inv (l : str) :
  is_marker l = false ->
  is_start l = false /\ is_separator l = false /\ is_end l = false.
Proof.
  unfold is_marker. intros H.
  apply orb_false_iff in H as [H ?]. apply orb_false_iff in H as [? ?]. done.
Qed.

End Markers.

Section Searching.

Context (p : str -> bool) (lines : list str).

Lemma find_from_fuel_spec (fuel i : nat) :
  length lines - i <= fuel ->
  match find_from_fuel fuel p lines i with
  | Done j =>
      i <= j /\ (exists l, lines !! j = Some l /\ p l = true) /\
      forall k l, i <= k < j -> lines !! k = Some l -> p l = false
  | Raise _ => forall k l, i <= k -> lines !! k = Some l -> p l = false
  | OutOfBudget => False
  end.
Proof.
  revert i. induction fuel as [|fuel IH]; intros i Hfuel; simpl.
  - destruct (lines !! i) as [l|] eqn:E.
    + destruct (p l) eqn:Hp.
      * split; [lia|]. split; [eauto|]. intros; lia.
      * apply lookup_lt_Some in E. lia.
    + intros k l Hk Hl. apply lookup_lt_Some in Hl.
      apply lookup_ge_None in E. lia.
  - destruct (lines !! i) as [l|] eqn:E.
    + destruct (p l) eqn:Hp.
      * split; [lia|]. split; [eauto|]. intros; lia.
      * specialize (IH (S i) ltac:(lia)).
        destruct (find_from_fuel fuel p lines (S i)) as [j|e|].
        -- destruct IH as (Hj & Hl & Hfirst). split; [lia|]. split; [done|].
           intros k l' Hk Hl'. destruct (decide (k = i)) as [->|].
           ++ congruence.
           ++ apply (Hfirst k); [lia|done].
        -- intros k l' Hk Hl'. destruct (decide (k = i)) as [->|].
           ++ congruence.
           ++ apply (IH k); [lia|done].
        -- done.
    + intros k l Hk Hl. apply lookup_lt_Some in Hl.
      apply lookup_ge_None in E. lia.
Qed.

Lemma find_from_Done (i j : nat) :
  find_from p lines i = Done j ->
  i <= j /\ (exists l, lines !! j = Some l /\ p l = true) /\
  forall k l, i <= k < j -> lines !! k = Some l -> p l = false.
Proof.
  unfold find_from. intros H.
  pose proof (find_from_fuel_spec (length lines) i ltac:(lia)) as S.
  by rewrite H in S.
Qed.

Lemma find_from_Raise (i : nat) (e : exn) :
  find_from p lines i = Raise e ->
  forall k l, i <= k -> lines !! k = Some l -> p l = false.
Proof.
  unfold find_from. intros H.
  pose proof (find_from_fuel_spec (length lines) i ltac:(lia)) as S.
  by rewrite H in S.
Qed.

Lemma find_from_total (i : nat) : find_from p lines i <> OutOfBudget.
Proof.
  unfold find_from. intros H.
  pose proof (find_from_fuel_spec (length lines) i ltac:(lia)) as S.
  by rewrite H in S.
Qed.

(** The search stops on the first line from [i] on that satisfies [p]. *)
Lemma find_from_first (i j : nat) (l : str) :
  i <= j -> lines !! j = Some l -> p l = true ->
  (forall k l', i <= k < j -> lines !! k = Some l' -> p l' = false) ->
  find_from p lines i = Done j.
Proof.
  intros Hij Hl Hp Hfirst.
  destruct (find_from p lines i) as [j'|e|] eqn:E.
  - apply find_from_Done in E as (Hj' & (l' & Hl' & Hp') & Hfirst').
    f_equal. destruct (Nat.lt_trichotomy j j') as [Hlt|[->|Hlt]]; [|done|].
    + specialize (Hfirst' j l ltac:(lia) Hl). congruence.
    + specialize (Hfirst j' l' ltac:(lia) Hl'). congruence.
  - pose proof (find_from_Raise _ _ E j l Hij Hl). congruence.
  - by apply find_from_total in E.
Qed.

(** Without a line satisfying [p] from [i] on, the search runs off the
    end of the list. *)
Lemma find_from_none (i : nat) :
  (forall k l, i <= k -> lines !! k = Some l -> p l = false) ->
  find_from p lines i = Raise IndexError.
Proof.
  intros Hnone.
  destruct (find_from p lines i) as [j|[]|] eqn:E.
  - apply find_from_Done in E as (Hj & (l & Hl & Hp) & _).
    specialize (Hnone j l Hj Hl). congruence.
  - done.
  - by apply find_from_total in E.
Qed.

End Searching.

Section Walk.

Context (lines : list str).

Lemma region_at_eq (i i1 i2 : nat) :
  region_at lines (i + 1, i1 + 1, i2) =
    {| ours_start_line := i; separator_line := i1; theirs_end_line := i2;
       ours_text := slice lines (S i) i1;
       theirs_text := slice lines (S i1) i2 |}.
Proof.
  unfold region_at. rewrite !Nat.add_sub, !Nat.add_1_r. done.
Qed.

Lemma locate_inv (i : nat) (b : nat * nat * nat) :
  locate lines i = Done b ->
  exists i1 i2,
    find_from is_separator lines i = Done i1 /\
    find_from is_end lines i1 = Done i2 /\
    b = (i + 1, i1 + 1, i2).
Proof.
  unfold locate.
  destruct (find_from is_separator lines i) as [i1|e|]; simpl; try done.
  destruct (find_from is_end lines i1) as [i2|e|] eqn:E2; simpl; try done.
  intros [= <-]. by exists i1, i2.
Qed.

Lemma locate_total (i : nat) : locate lines i <> OutOfBudget.
Proof.
  unfold locate.
  destruct (find_from is_separator lines i) as [i1|e|] eqn:E1; simpl; try done.
  - destruct (find_from is_end lines i1) as [i2|e|] eqn:E2; simpl; try done.
    by apply find_from_total in E2.
  - by apply find_from_total in E1.
Qed.

(** The region computed at a start marker line is delimited. *)
Lemma locate_delimited (i : nat) (l : str) (b : nat * nat * nat) :
  lines !! i = Some l -> is_start l = true ->
  locate lines i = Done b ->
  delimited lines (region_at lines b) /\
  ours_start_line (region_at lines b) = i.
Proof.
  intros Hl Hstart Hb.
  apply locate_inv in Hb as (i1 & i2 & E1 & E2 & ->).
  apply find_from_Done in E1 as (H1 & (m & Hm & Hsep) & Hfirst1).
  apply find_from_Done in E2 as (H2 & (e & He & Hend) & Hfirst2).
  rewrite region_at_eq. split; [|done].
  assert (i <> i1) as Hne1.
  { intros ->. apply start_not_separator in Hstart. congruence. }
  assert (i1 <> i2) as Hne2.
  { intros ->. apply separator_not_end in Hsep. congruence. }
  split; simpl; eauto.
  - lia.
Qed.

Lemma scan_loop_spec (fuel i : nat) (rs : list ConflictRegion) :
  scan_loop fuel lines i = Done rs ->
  Forall (delimited lines) rs /\ ordered_from i rs.
Proof.
  revert i rs. induction fuel as [|fuel IH]; intros i rs; simpl.
  - destruct (lines !! i); [done|]. intros [= <-]. by split.
  - destruct (lines !! i) as [l|] eqn:Hl; [|intros [= <-]; by split].
    destruct (is_start l) eqn:Hstart.
    + destruct (locate lines i) as [b|e|] eqn:Hb; simpl; try done.
      destruct (locate_delimited i l b Hl Hstart Hb) as [Hd Hi].
      destruct (scan_loop fuel lines (S (theirs_end_line (region_at lines b))))
        as [rs'|e|] eqn:Hrs; simpl; try done.
      intros [= <-]. destruct (IH _ _ Hrs) as [Hall Hord].
      split; [by constructor|]. simpl. split; [lia|done].
    + intros Hrs. destruct (IH _ _ Hrs) as [Hall Hord]. split; [done|].
      destruct rs as [|r rs]; [done|]. simpl in *. split; [lia|tauto].
Qed.

Lemma scan_loop_total (fuel i : nat) :
  length lines - i <= fuel -> scan_loop fuel lines i <> OutOfBudget.
Proof.
  revert i. induction fuel as [|fuel IH]; intros i Hfuel; simpl.
  - destruct (lines !! i) as [l|] eqn:Hl; [|done].
    apply lookup_lt_Some in Hl. lia.
  - destruct (lines !! i) as [l|] eqn:Hl; [|done].
    destruct (is_start l) eqn:Hstart.
    + destruct (locate lines i) as [b|e|] eqn:Hb; simpl; try done.
      * destruct (locate_delimited i l b Hl Hstart Hb) as [Hd Hi].
        pose proof (dl_order _ _ Hd) as Hord.
        specialize (IH (S (theirs_end_line (region_at lines b))) ltac:(lia)).
        destruct (scan_loop fuel lines (S (theirs_end_line (region_at lines b))));
          simpl; done.
      * by apply locate_total in Hb.
    + apply IH. lia.
Qed.

(** Without a line beginning with the start marker there is no region. *)
Lemma scan_loop_no_start (fuel i : nat) :
  length lines - i <= fuel ->
  Forall (fun l => is_start l = false) lines ->
  scan_loop fuel lines i = Done [].
Proof.
  intros Hfuel Hall. revert i Hfuel.
  induction fuel as [|fuel IH]; intros i Hfuel; simpl.
  - destruct (lines !! i) as [l|] eqn:Hl; [|done].
    apply lookup_lt_Some in Hl. lia.
  - destruct (lines !! i) as [l|] eqn:Hl; [|done].
    rewrite (proj1 (Forall_lookup _ _) Hall i l Hl). apply IH. lia.
Qed.

End Walk.

Section Rebuild.

Context (pol : policy) (lines : list str).

Lemma rebuild_skip (i : nat) (l : str) (rs : list ConflictRegion) :
  lines !! i = Some l -> ordered_from (S i) rs ->
  rebuild pol lines i rs = l :: rebuild pol lines (S i) rs.
Proof.
  intros Hl Hord. destruct rs as [|r rs]; simpl.
  - by apply drop_S.
  - destruct Hord as [Hr _]. unfold slice. rewrite (drop_S _ _ _ Hl).
    replace (ours_start_line r - i) with (S (ours_start_line r - S i)) by lia.
    done.
Qed.

(** The walk with its accumulator writes what the specification
    describes: the lines between the regions, and for each region the
    chosen text in place of its span. *)
Lemma resolve_loop_scan (fuel i : nat) (acc : list str) :
  resolve_loop fuel pol lines i acc =
    (rs <- scan_loop fuel lines i ;; Done (acc ++ rebuild pol lines i rs)).
Proof.
  revert i acc. induction fuel as [|fuel IH]; intros i acc; simpl.
  - destruct (lines !! i) as [l|] eqn:Hl; [done|]. simpl.
    apply lookup_ge_None in Hl. by rewrite drop_ge, app_nil_r.
  - destruct (lines !! i) as [l|] eqn:Hl.
    + destruct (is_start l) eqn:Hstart.
      * destruct (locate lines i) as [b|e|] eqn:Hb; simpl; try done.
        destruct (locate_delimited lines i l b Hl Hstart Hb) as [_ Hi].
        rewrite IH.
        destruct (scan_loop fuel lines (S (theirs_end_line (region_at lines b))));
          simpl; try done.
        rewrite Hi. unfold slice at 1. rewrite Nat.sub_diag, take_0. simpl.
        by rewrite <- app_assoc.
      * rewrite IH.
        destruct (scan_loop fuel lines (S i)) as [rs|e|] eqn:Hrs; simpl; try done.
        apply scan_loop_spec in Hrs as [_ Hord].
        rewrite (rebuild_skip i l rs Hl Hord). by rewrite <- app_assoc.
    + simpl. apply lookup_ge_None in Hl. by rewrite drop_ge, app_nil_r.
Qed.

Lemma resolve_lines_scan :
  resolve_lines pol lines =
    (rs <- scan_lines lines ;; Done (rebuild pol lines 0 rs)).
Proof.
  unfold resolve_lines, scan_lines. by rewrite resolve_loop_scan.
Qed.

End Rebuild.

Section Decomposition.

Lemma slice_middle (a mid b : list str) (i j : nat) :
  i = length a -> j = length a + length mid ->
  slice (a ++ mid ++ b) i j = mid.
Proof.
  intros -> ->. unfold slice. rewrite drop_app_length.
  replace (length a + length mid - length a) with (length mid) by lia.
  apply take_app_length.
Qed.

(** A search that starts at the end of [pre] passes over the lines of
    [mid], none of which satisfies [p], and stops on [x]. *)
Lemma find_from_app (p : str -> bool) (pre mid : list str) (x : str)
    (suf : list str) :
  Forall (fun l => p l = false) mid -> p x = true ->
  find_from p (pre ++ mid ++ x :: suf) (length pre)
    = Done (length pre + length mid).
Proof.
  intros Hmid Hx. apply (find_from_first _ _ _ _ x); [lia| |done|].
  - rewrite app_assoc. apply list_lookup_middle. by rewrite length_app.
  - intros k l [Hk1 Hk2] Hl.
    rewrite lookup_app_r in Hl by lia.
    rewrite lookup_app_l in Hl by lia.
    by apply (proj1 (Forall_lookup _ _) Hmid (k - length pre) l).
Qed.

Lemma locate_decomposed (pre : list str) (s : str) (ours : list str)
    (m : str) (theirs : list str) (e : str) (post : list str) :
  is_start s = true ->
  Forall (fun l => is_separator l = false) ours -> is_separator m = true ->
  Forall (fun l => is_end l = false) theirs -> is_end e = true ->
  locate (pre ++ s :: ours ++ m :: theirs ++ e :: post) (length pre)
    = Done (length pre + 1,
            length pre + S (length ours) + 1,
            length pre + S (length ours) + S (length theirs)).
Proof.
  intros Hs Hours Hm Htheirs He. unfold locate.
  assert (Forall (fun l => is_separator l = false) (s :: ours)) as Hours'.
  { constructor; [by apply start_not_separator|done]. }
  assert (Forall (fun l => is_end l = false) (m :: theirs)) as Htheirs'.
  { constructor; [by apply separator_not_end|done]. }
  pose proof (find_from_app is_separator pre (s :: ours) m
                (theirs ++ e :: post) Hours' Hm) as H1.
  pose proof (find_from_app is_end (pre ++ s :: ours) (m :: theirs) e
                post Htheirs' He) as H2.
  rewrite <- app_assoc in H2. rewrite length_app in H2.
  cbn [app length] in H1, H2.
  rewrite H1. cbn [bind]. rewrite H2. done.
Qed.

Lemma region_decomposed (pre : list str) (s : str) (ours : list str)
    (m : str) (theirs : list str) (e : str) (post : list str) :
  region_at (pre ++ s :: ours ++ m :: theirs ++ e :: post)
    (length pre + 1,
     length pre + S (length ours) + 1,
     length pre + S (length ours) + S (length theirs))
  = {| ours_start_line := length pre;
       separator_line := length pre + S (length ours);
       theirs_end_line := length pre + S (length ours) + S (length theirs);
       ours_text := ours;
       theirs_text := theirs |}.
Proof.
  rewrite region_at_eq. f_equal.
  - change (pre ++ s :: ours ++ m :: theirs ++ e :: post)
      with (pre ++ [s] ++ ours ++ m :: theirs ++ e :: post).
    rewrite app_assoc. apply slice_middle; rewrite length_app; simpl; lia.
  - change (pre ++ s :: ours ++ m :: theirs ++ e :: post)
      with (pre ++ (s :: ours) ++ [m] ++ theirs ++ e :: post).
    rewrite !app_assoc. rewrite <- (app_assoc _ theirs).
    apply slice_middle; rewrite !length_app; simpl; lia.
Qed.

End Decomposition.

Section Steps.

Context (lines : list str).

(** A budget that suffices can be replaced by any other that does. *)
Lemma scan_loop_fuel (fuel1 fuel2 i : nat) :
  length lines - i <= fuel1 -> length lines - i <= fuel2 ->
  scan_loop fuel1 lines i = scan_loop fuel2 lines i.
Proof.
  revert fuel2 i. induction fuel1 as [|fuel1 IH]; intros fuel2 i H1 H2.
  - simpl. destruct (lines !! i) as [l|] eqn:Hl.
    + apply lookup_lt_Some in Hl. lia.
    + destruct fuel2; simpl; by rewrite Hl.
  - destruct fuel2 as [|fuel2]; simpl.
    + destruct (lines !! i) as [l|] eqn:Hl; [|done].
      apply lookup_lt_Some in Hl. lia.
    + destruct (lines !! i) as [l|] eqn:Hl; [|done].
      destruct (is_start l) eqn:Hstart.
      * destruct (locate lines i) as [b|e|] eqn:Hb; simpl; try done.
        destruct (locate_delimited lines i l b Hl Hstart Hb) as [Hd Hi].
        pose proof (dl_order _ _ Hd) as Hord.
        rewrite (IH fuel2) by lia. done.
      * apply IH; lia.
Qed.

Context (fuel : nat) (Hfuel : length lines <= fuel).

Lemma scan_end (i : nat) : length lines <= i -> scan_loop fuel lines i = Done [].
Proof.
  intros Hi. apply lookup_ge_None in Hi. destruct fuel; simpl; by rewrite Hi.
Qed.

Lemma scan_skip (i : nat) (l : str) :
  lines !! i = Some l -> is_start l = false ->
  scan_loop fuel lines i = scan_loop fuel lines (S i).
Proof.
  intros Hl Hstart. pose proof (lookup_lt_Some _ _ _ Hl).
  destruct fuel as [|fuel'] eqn:E; [lia|].
  simpl scan_loop at 1. rewrite Hl, Hstart.
  apply scan_loop_fuel; lia.
Qed.

Lemma scan_region (i : nat) (l : str) (b : nat * nat * nat) :
  lines !! i = Some l -> is_start l = true -> locate lines i = Done b ->
  scan_loop fuel lines i =
    (rs <- scan_loop fuel lines (S (theirs_end_line (region_at lines b))) ;;
     Done (region_at lines b :: rs)).
Proof.
  intros Hl Hstart Hb. pose proof (lookup_lt_Some _ _ _ Hl).
  destruct (locate_delimited lines i l b Hl Hstart Hb) as [Hd Hi].
  pose proof (dl_order _ _ Hd) as Hord.
  destruct fuel as [|fuel'] eqn:E; [lia|].
  simpl scan_loop at 1. rewrite Hl, Hstart, Hb. simpl.
  rewrite (scan_loop_fuel fuel' (S fuel')) by lia. done.
Qed.

(** The walk passes over lines that do not begin with the start marker. *)
Lemma scan_skip_run (pre mid suf : list str) :
  lines = pre ++ mid ++ suf ->
  Forall (fun l => is_start l = false) mid ->
  scan_loop fuel lines (length pre)
    = scan_loop fuel lines (length pre + length mid).
Proof.
  intros Hlines Hmid. revert pre Hlines.
  induction Hmid as [|l mid Hl _ IH]; intros pre Hlines; simpl.
  - by rewrite Nat.add_0_r.
  - rewrite (scan_skip (length pre) l); [| |done].
    + specialize (IH (pre ++ [l])). rewrite length_app in IH. simpl in IH.
      rewrite Nat.add_1_r in IH. rewrite IH; [f_equal; lia|].
      rewrite Hlines, <- app_assoc. done.
    + rewrite Hlines. by apply list_lookup_middle.
Qed.

End Steps.

Section Rewritten.

Lemma no_CR_join (ls : list str) :
  CR ∉ join ls <-> Forall (fun l => CR ∉ l) ls.
Proof.
  unfold join. induction ls as [|l ls IH]; simpl.
  - split; [constructor|]. intros _. apply not_elem_of_nil.
  - rewrite not_elem_of_app, IH, Forall_cons. done.
Qed.

Lemma lines_of_line_list (disk : str) : line_list (lines_of disk).
Proof.
  apply splitlines_line_list, universal_newlines_no_CR.
Qed.

Lemma lines_of_no_CR (disk : str) : Forall (fun l => CR ∉ l) (lines_of disk).
Proof.
  apply no_CR_join. unfold lines_of. rewrite join_splitlines.
  apply universal_newlines_no_CR.
Qed.

(** Lines of that shape are read back as they are once joined. *)
Lemma lines_of_join (ls : list str) :
  line_list ls -> Forall (fun l => CR ∉ l) ls -> lines_of (join ls) = ls.
Proof.
  intros Hll HCR. unfold lines_of, read_text.
  rewrite universal_newlines_id by by apply no_CR_join.
  by apply splitlines_join.
Qed.

Lemma slice_terminated (lines : list str) (a b : nat) :
  line_list lines -> b < length lines -> Forall terminated (slice lines a b).
Proof.
  intros Hll Hb. apply Forall_lookup. intros k l Hl. unfold slice in Hl.
  apply lookup_take_Some in Hl as [Hl Hk]. rewrite lookup_drop in Hl.
  apply (line_list_lookup lines (a + k) l); [done|done|lia].
Qed.

Lemma slice_Forall (P : str -> Prop) (lines : list str) (a b : nat) :
  Forall P lines -> Forall P (slice lines a b).
Proof.
  intros H. unfold slice. by apply Forall_take, Forall_drop.
Qed.

Lemma replacement_Forall (P : str -> Prop) (lines : list str)
    (c : ResolutionChoice) (r : ConflictRegion) :
  delimited lines r ->
  Forall P (slice lines (S (ours_start_line r)) (separator_line r)) ->
  Forall P (slice lines (S (separator_line r)) (theirs_end_line r)) ->
  Forall P (replacement c r).
Proof.
  intros Hd Ho Ht. rewrite <- (dl_ours _ _ Hd) in Ho.
  rewrite <- (dl_theirs _ _ Hd) in Ht.
  destruct c; simpl; try done. by apply Forall_app.
Qed.

Context (pol : policy) (lines : list str).

Lemma rebuild_Forall (P : str -> Prop) (pos : nat) (rs : list ConflictRegion) :
  Forall P lines -> Forall (delimited lines) rs ->
  Forall P (rebuild pol lines pos rs).
Proof.
  intros HP Hrs. revert pos.
  induction Hrs as [|r rs Hr _ IH]; intros pos; simpl.
  - by apply Forall_drop.
  - apply Forall_app. split; [by apply slice_Forall|].
    apply Forall_app. split; [|apply IH].
    apply (replacement_Forall P lines); [done| |]; by apply slice_Forall.
Qed.

Lemma delimited_lt_length (r : ConflictRegion) :
  delimited lines r -> theirs_end_line r < length lines.
Proof.
  intros Hd. destruct (dl_end _ _ Hd) as (e & He & _).
  by apply lookup_lt_Some in He.
Qed.

Lemma rebuild_line_list (pos : nat) (rs : list ConflictRegion) :
  line_list lines -> Forall (delimited lines) rs ->
  line_list (rebuild pol lines pos rs).
Proof.
  intros Hll Hrs. revert pos.
  induction Hrs as [|r rs Hr _ IH]; intros pos; simpl.
  - by apply line_list_drop.
  - pose proof (delimited_lt_length r Hr) as Hlen.
    pose proof (dl_order _ _ Hr) as Hord.
    apply line_list_app; [apply slice_terminated; [done|lia]|].
    apply line_list_app; [|apply IH].
    apply (replacement_Forall terminated lines); [done| |];
      apply slice_terminated; try done; lia.
Qed.

End Rewritten.

(** What [resolve] writes is read back line for line. *)
Lemma lines_of_rewritten (pol : policy) (disk : str) (rs : list ConflictRegion) :
  scan disk = Done rs ->
  lines_of (join (rebuild pol (lines_of disk) 0 rs))
    = rebuild pol (lines_of disk) 0 rs.
Proof.
  intros Hrs. apply scan_loop_spec in Hrs as [Hall _].
  apply lines_of_join.
  - apply rebuild_line_list; [apply lines_of_line_list|done].
  - apply rebuild_Forall; [apply lines_of_no_CR|done].
Qed.

Section WellFormed.

Lemma wf_ours_split (rest : list str) :
  wf_from InOurs rest = true ->
  exists ours m rest',
    rest = ours ++ m :: rest' /\
    Forall (fun l => is_start l = false) ours /\
    Forall (fun l => is_separator l = false) ours /\
    is_separator m = true /\ wf_from InTheirs rest' = true.
Proof.
  induction rest as [|l rest IH]; simpl; [done|].
  destruct (is_separator l) eqn:Hsep.
  - intros H. by exists [], l, rest.
  - intros H. apply andb_true_iff in H as [Hl H].
    apply negb_true_iff in Hl.
    destruct (IH H) as (ours & m & rest' & -> & Hours & Hours' & Hm & Hrest).
    exists (l :: ours), m, rest'. repeat split; try done; by constructor.
Qed.

Lemma wf_theirs_split (rest : list str) :
  wf_from InTheirs rest = true ->
  exists theirs e rest',
    rest = theirs ++ e :: rest' /\
    Forall (fun l => is_start l = false) theirs /\
    Forall (fun l => is_end l = false) theirs /\
    is_end e = true /\ wf_from Outside rest' = true.
Proof.
  induction rest as [|l rest IH]; simpl; [done|].
  destruct (is_end l) eqn:Hend.
  - intros H. by exists [], l, rest.
  - intros H. apply andb_true_iff in H as [Hl H].
    apply negb_true_iff in Hl.
    destruct (IH H) as (theirs & e & rest' & -> & Ht & Ht' & He & Hrest).
    exists (l :: theirs), e, rest'. repeat split; try done; by constructor.
Qed.

Lemma Forall_not_marker (ls : list str) :
  Forall (fun l => is_marker l = false) ls ->
  Forall (fun l => is_start l = false) ls /\
  Forall (fun l => is_separator l = false) ls /\
  Forall (fun l => is_end l = false) ls.
Proof.
  intros H. repeat split; eapply Forall_impl; try exact H;
    intros l Hl; by destruct (not_marker_inv l Hl) as (? & ? & ?).
Qed.

Context (pol : policy) (lines : list str).
Context (fuel : nat) (Hfuel : length lines <= fuel).

(** On a well-formed file the walk finds every region, and none of the
    lines it writes begins with the start marker. *)
Lemma wf_scan (n : nat) (suf pre : list str) :
  length suf <= n -> lines = pre ++ suf -> wf_from Outside suf = true ->
  exists rs,
    scan_loop fuel lines (length pre) = Done rs /\
    Forall (fun l => is_start l = false) (rebuild pol lines (length pre) rs).
Proof.
  revert suf pre. induction n as [|n IH]; intros suf pre Hn Hlines Hwf.
  - destruct suf; [|simpl in Hn; lia]. exists []. split.
    + apply scan_end; [done|]. rewrite Hlines, length_app. simpl. lia.
    + simpl. rewrite drop_ge; [constructor|].
      rewrite Hlines, length_app. simpl. lia.
  - destruct suf as [|l rest].
    { exists []. split.
      + apply scan_end; [done|]. rewrite Hlines, length_app. simpl. lia.
      + simpl. rewrite drop_ge; [constructor|].
        rewrite Hlines, length_app. simpl. lia. }
    simpl in Hwf, Hn.
    assert (lines !! length pre = Some l) as Hl.
    { rewrite Hlines. by apply list_lookup_middle. }
    destruct (is_start l) eqn:Hstart.
    + destruct (wf_ours_split _ Hwf)
        as (ours & m & rest1 & -> & Hours & Hours_sep & Hm & Hwf1).
      destruct (wf_theirs_split _ Hwf1)
        as (theirs & e & rest2 & -> & Htheirs & Htheirs_end & He & Hwf2).
      pose proof (locate_decomposed pre l ours m theirs e rest2
                    Hstart Hours_sep Hm Htheirs_end He) as Hloc.
      rewrite <- Hlines in Hloc.
      pose proof (region_decomposed pre l ours m theirs e rest2) as Hreg.
      rewrite <- Hlines in Hreg.
      rewrite (scan_region lines fuel Hfuel _ l _ Hl Hstart Hloc).
      rewrite Hreg. cbn [theirs_end_line].
      destruct (IH rest2 (pre ++ l :: ours ++ m :: theirs ++ [e]))
        as (rs & Hrs & Hout).
      * rewrite !length_app in Hn. simpl in Hn. rewrite length_app in Hn.
        simpl in Hn. lia.
      * rewrite Hlines. rewrite <- app_assoc. simpl. do 2 f_equal.
        rewrite <- app_assoc. simpl. do 2 f_equal.
        rewrite <- app_assoc. done.
      * done.
      * replace (length (pre ++ l :: ours ++ m :: theirs ++ [e]))
          with (S (length pre + S (length ours) + S (length theirs)))
          in Hrs, Hout.
        2:{ rewrite !length_app. simpl. rewrite length_app. simpl.
            rewrite length_app. simpl. lia. }
        rewrite Hrs. cbn [bind]. eexists. split; [done|].
        cbn [rebuild ours_start_line theirs_end_line].
        unfold slice at 1. rewrite Nat.sub_diag, take_0. cbn [app].
        apply Forall_app. split; [|done].
        destruct (pol _); cbn [replacement ours_text theirs_text]; try done.
        by apply Forall_app.
    + rewrite (scan_skip lines fuel Hfuel _ l Hl Hstart).
      destruct (IH rest (pre ++ [l])) as (rs & Hrs & Hout).
      * lia.
      * rewrite Hlines, <- app_assoc. done.
      * done.
      * rewrite length_app in Hrs, Hout. simpl in Hrs, Hout.
        rewrite Nat.add_1_r in Hrs, Hout.
        exists rs. split; [done|].
        destruct (scan_loop_spec _ _ _ _ Hrs) as [_ Hord].
        rewrite (rebuild_skip pol lines _ l rs Hl Hord). by constructor.
Qed.

End WellFormed.

Section Resolve.

Context (pol : policy) (disk : str).

Lemma resolve_eq :
  resolve pol disk =
    (rs <- scan disk ;;
     match rs with
     | [] => Done NoOp
     | _ :: _ => Done (RewrittenFile (join (rebuild pol (lines_of disk) 0 rs)))
     end).
Proof.
  unfold resolve. destruct (scan disk) as [rs|e|] eqn:Hrs; simpl; try done.
  destruct rs as [|r rs]; [done|].
  rewrite resolve_lines_scan. unfold scan in Hrs. rewrite Hrs. done.
Qed.

(** The step budget of the model is never used up: [scan] and [resolve]
    finish or raise. *)
Lemma scan_total : scan disk <> OutOfBudget.
Proof.
  unfold scan, scan_lines. apply scan_loop_total. lia.
Qed.

Lemma resolve_total : resolve pol disk <> OutOfBudget.
Proof.
  rewrite resolve_eq. pose proof scan_total.
  destruct (scan disk) as [[|r rs]|e|]; simpl; done.
Qed.

End Resolve.

Section SingleRegion.

Context (lines pre : list str) (s : str) (ours : list str) (m : str).
Context (theirs : list str) (e : str) (post : list str).
Context (Hlines : lines = pre ++ s :: ours ++ m :: theirs ++ e :: post).
Context (Hpre : Forall (fun l => is_start l = false) pre).
Context (Hs : is_start s = true).
Context (Hours : Forall (fun l => is_separator l = false) ours).
Context (Hm : is_separator m = true).
Context (Htheirs : Forall (fun l => is_end l = false) theirs).
Context (He : is_end e = true).
Context (Hpost : Forall (fun l => is_start l = false) post).

Lemma scan_single :
  scan_lines lines =
    Done [ {| ours_start_line := length pre;
              separator_line := length pre + S (length ours);
              theirs_end_line := length pre + S (length ours) + S (length theirs);
              ours_text := ours;
              theirs_text := theirs |} ].
Proof.
  unfold scan_lines.
  assert (length lines <= length lines) as Hfuel by lia.
  pose proof (scan_skip_run lines _ Hfuel [] pre _ Hlines Hpre) as Hrun0.
  cbn [length Nat.add] in Hrun0. rewrite Hrun0.
  pose proof (locate_decomposed pre s ours m theirs e post
                Hs Hours Hm Htheirs He) as Hloc.
  pose proof (region_decomposed pre s ours m theirs e post) as Hreg.
  rewrite <- Hlines in Hloc, Hreg.
  assert (lines !! length pre = Some s) as Hl.
  { rewrite Hlines. by apply list_lookup_middle. }
  rewrite (scan_region lines _ Hfuel _ s _ Hl Hs Hloc).
  rewrite Hreg. cbn [theirs_end_line].
  assert (lines = (pre ++ s :: ours ++ m :: theirs ++ [e]) ++ post ++ [])
    as Hlines'.
  { rewrite Hlines, app_nil_r. rewrite <- app_assoc. simpl. do 2 f_equal.
    rewrite <- app_assoc. simpl. do 2 f_equal. rewrite <- app_assoc. done. }
  pose proof (scan_skip_run lines _ Hfuel _ post [] Hlines' Hpost) as Hrun.
  replace (length (pre ++ s :: ours ++ m :: theirs ++ [e]))
    with (S (length pre + S (length ours) + S (length theirs))) in Hrun.
  2:{ rewrite !length_app. simpl. rewrite length_app. simpl.
      rewrite length_app. simpl. lia. }
  rewrite Hrun. rewrite scan_end; [done|done|].
  rewrite Hlines. rewrite !length_app. simpl. rewrite length_app. simpl.
  rewrite length_app. simpl. lia.
Qed.

Lemma rebuild_single (pol : policy) (r : ConflictRegion) :
  ours_start_line r = length pre ->
  theirs_end_line r = length pre + S (length ours) + S (length theirs) ->
  rebuild pol lines 0 [r] = pre ++ replacement (pol r) r ++ post.
Proof.
  intros Hstart Hend. simpl. rewrite Hstart, Hend. f_equal.
  - unfold slice. rewrite Nat.sub_0_r, drop_0, Hlines. apply take_app_length.
  - f_equal. rewrite Hlines.
    replace (pre ++ s :: ours ++ m :: theirs ++ e :: post)
      with ((pre ++ s :: ours ++ m :: theirs ++ [e]) ++ post).
    2:{ rewrite <- app_assoc. simpl. do 2 f_equal.
        rewrite <- app_assoc. simpl. do 2 f_equal. rewrite <- app_assoc. done. }
    apply drop_app_length'. rewrite !length_app. simpl. rewrite length_app.
    simpl. rewrite length_app. simpl. lia.
Qed.

End SingleRegion.

(** ** The claims about scanning and resolving *)

(** A start marker the walk reaches, with no separator after it, makes
    the search for the separator run off the end of the list. *)
Lemma scan_missing_separator (lines pre : list str) (s : str) (rest : list str) :
  lines = pre ++ s :: rest ->
  Forall (fun l => is_start l = false) pre ->
  is_start s = true ->
  Forall (fun l => is_separator l = false) rest ->
  scan_lines lines = Raise IndexError.
Proof.
  intros Hlines Hpre Hs Hrest. unfold scan_lines.
  assert (length lines <= length lines) as Hfuel by lia.
  pose proof (scan_skip_run lines _ Hfuel [] pre _ Hlines Hpre) as Hrun.
  cbn [length Nat.add] in Hrun. rewrite Hrun.
  assert (lines !! length pre = Some s) as Hl.
  { rewrite Hlines. by apply list_lookup_middle. }
  pose proof (lookup_lt_Some _ _ _ Hl) as Hlt.
  destruct (length lines) as [|fuel] eqn:E; [lia|].
  simpl. rewrite Hl, Hs. unfold locate.
  rewrite find_from_none; [done|].
  intros k l Hk Hkl. rewrite Hlines in Hkl.
  rewrite lookup_app_r in Hkl by lia.
  assert (Forall (fun l => is_separator l = false) (s :: rest)) as Hall.
  { constructor; [by apply start_not_separator|done]. }
  by apply (proj1 (Forall_lookup _ _) Hall (k - length pre) l).
Qed.

(** C2: on the file ["<<<<<<< HEAD\nmine\n"], which has a start marker and
    no separator, the walk reads [lines[i]] past the end of the list:
    [scan] and [resolve] end with [IndexError], a failure by an index out
    of bounds and not a report of a malformed conflict. *)
Theorem scan_no_separator_index_error :
  lines_of no_separator = [ln "<<<<<<< HEAD"; ln "mine"] /\
  scan no_separator = Raise IndexError /\
  resolve (fun _ => TakeOurs) no_separator = Raise IndexError.
Proof.
  repeat split; vm_compute; reflexivity.
Qed.

Section SingleRegionFile.

Context (disk : str) (pre : list str) (s : str) (ours : list str) (m : str).
Context (theirs : list str) (e : str) (post : list str).
Context (Hlines : lines_of disk = pre ++ s :: ours ++ m :: theirs ++ e :: post).
Context (Hs : is_start s = true) (Hm : is_separator m = true).
Context (He : is_end e = true).
Context (Hpre : Forall (fun l => is_marker l = false) pre).
Context (Hours : Forall (fun l => is_marker l = false) ours).
Context (Htheirs : Forall (fun l => is_marker l = false) theirs).
Context (Hpost : Forall (fun l => is_marker l = false) post).

Lemma scan_single_file :
  scan disk =
    Done [ {| ours_start_line := length pre;
              separator_line := length pre + S (length ours);
              theirs_end_line := length pre + S (length ours) + S (length theirs);
              ours_text := ours;
              theirs_text := theirs |} ].
Proof.
  destruct (Forall_not_marker _ Hpre) as (Hpre' & _ & _).
  destruct (Forall_not_marker _ Hours) as (_ & Hours' & _).
  destruct (Forall_not_marker _ Htheirs) as (_ & _ & Htheirs').
  destruct (Forall_not_marker _ Hpost) as (Hpost' & _ & _).
  unfold scan. by apply (scan_single _ pre s ours m theirs e post).
Qed.

Lemma resolve_single_choice (c : ResolutionChoice) (chosen : list str) :
  chosen = match c with
           | TakeOurs => ours
           | TakeTheirs => theirs
           | TakeBoth => ours ++ theirs
           end ->
  resolve (fun _ => c) disk = Done (RewrittenFile (join (pre ++ chosen ++ post))) /\
  lines_of (join (pre ++ chosen ++ post)) = pre ++ chosen ++ post /\
  Forall (fun l => is_marker l = false) (pre ++ chosen ++ post).
Proof.
  intros ->. pose proof scan_single_file as Hscan.
  pose proof (lines_of_rewritten (fun _ => c) disk _ Hscan) as Hback.
  rewrite (rebuild_single _ pre s ours m theirs e post Hlines) in Hback by done.
  rewrite resolve_eq, Hscan. cbn [bind].
  rewrite (rebuild_single _ pre s ours m theirs e post Hlines) by done.
  split; [by destruct c|]. split; [by destruct c|].
  apply Forall_app. split; [done|]. apply Forall_app. split; [|done].
  destruct c; try done. by apply Forall_app.
Qed.

End SingleRegionFile.

(** C3: a file whose lines are [pre], a start marker line, [ours], a
    separator line, [theirs], an end marker line and [post], with no
    marker line among [pre], [ours], [theirs] and [post], is rewritten by
    TakeOurs to [pre ++ ours ++ post], by TakeTheirs to
    [pre ++ theirs ++ post] and by TakeBoth to
    [pre ++ ours ++ theirs ++ post]: the span from the start marker to the
    end marker is replaced by exactly the chosen lines.  In the three
    cases the lines of the rewritten file are these lines, and none of
    them is a marker line. *)
Theorem resolve_single_region (disk : str) (pre : list str) (s : str)
    (ours : list str) (m : str) (theirs : list str) (e : str)
    (post : list str) :
  lines_of disk = pre ++ s :: ours ++ m :: theirs ++ e :: post ->
  is_start s = true -> is_separator m = true -> is_end e = true ->
  Forall (fun l => is_marker l = false) pre ->
  Forall (fun l => is_marker l = false) ours ->
  Forall (fun l => is_marker l = false) theirs ->
  Forall (fun l => is_marker l = false) post ->
  (resolve (fun _ => TakeOurs) disk
     = Done (RewrittenFile (join (pre ++ ours ++ post))) /\
   lines_of (join (pre ++ ours ++ post)) = pre ++ ours ++ post /\
   Forall (fun l => is_marker l = false) (pre ++ ours ++ post)) /\
  (resolve (fun _ => TakeTheirs) disk
     = Done (RewrittenFile (join (pre ++ theirs ++ post))) /\
   lines_of (join (pre ++ theirs ++ post)) = pre ++ theirs ++ post /\
   Forall (fun l => is_marker l = false) (pre ++ theirs ++ post)) /\
  (resolve (fun _ => TakeBoth) disk
     = Done (RewrittenFile (join (pre ++ (ours ++ theirs) ++ post))) /\
   lines_of (join (pre ++ (ours ++ theirs) ++ post))
     = pre ++ (ours ++ theirs) ++ post /\
   Forall (fun l => is_marker l = false) (pre ++ (ours ++ theirs) ++ post)).
Proof.
  intros Hlines Hs Hm He Hpre Hours Htheirs Hpost.
  split; [|split].
  - by apply (resolve_single_choice disk pre s ours m theirs e post).
  - by apply (resolve_single_choice disk pre s ours m theirs e post).
  - by apply (resolve_single_choice disk pre s ours m theirs e post).
Qed.

Lemma resolve_single_region_witness :
  lines_of one_region
    = [ln "intro"] ++ ln "<<<<<<< HEAD" :: [ln "mine"] ++ ln "=======" ::
      [ln "yours"] ++ ln ">>>>>>> feature" :: [ln "outro"] /\
  resolve (fun _ => TakeOurs) one_region
    = Done (RewrittenFile (join ([ln "intro"] ++ [ln "mine"] ++ [ln "outro"]))).
Proof.
  split; [vm_compute; reflexivity|].
  apply (resolve_single_region one_region
           [ln "intro"] (ln "<<<<<<< HEAD") [ln "mine"] (ln "=======")
           [ln "yours"] (ln ">>>>>>> feature") [ln "outro"]);
    try (vm_compute; reflexivity);
    repeat constructor.
Defined.

(** A line that is part of a text occurs in it. *)
Lemma line_in_text (ls : list str) (l : str) :
  l ∈ ls -> exists a b, join ls = a ++ l ++ b.
Proof.
  intros Hl. apply list_elem_of_split in Hl as (l1 & l2 & ->).
  exists (join l1), (join l2). unfold join. by rewrite concat_app.
Qed.

(** A text in which the detection finds nothing has no line beginning
    with the start marker. *)
Lemma no_detection_no_start (disk : str) :
  has_conflict_markers (read_text disk) = false ->
  Forall (fun l => is_start l = false) (lines_of disk).
Proof.
  intros Hdet. apply Forall_forall. intros l Hl.
  destruct (is_start l) eqn:Hstart; [|done].
  apply startswith_inv in Hstart as [rest ->].
  apply line_in_text in Hl as (a & b & Htext).
  unfold lines_of in Htext. rewrite join_splitlines in Htext.
  assert (has_conflict_markers (read_text disk) = true) as Hyes.
  { apply contains_iff. exists a, (32%N :: rest ++ b).
    rewrite Htext. unfold START, DETECT. simpl. done. }
  congruence.
Qed.

(** C4, as stated, fails for the detection: the text
    ["the region opens at the <<<<<<< line\n"] has no line beginning with
    a marker prefix and no region, and [has_conflict_markers] reports a
    marker in it. *)
Lemma detection_in_mid_line :
  has_conflict_markers (read_text marker_in_text) = true /\
  forallb (fun l => negb (is_marker l)) (lines_of marker_in_text) = true /\
  scan marker_in_text = Done [].
Proof.
  repeat split; vm_compute; reflexivity.
Qed.

(** C4, amended: the line walk treats a line as structural only if it
    begins with a marker prefix: in every region found, the line that
    opens it begins with ["<<<<<<< "], its separator with ["======="] and
    the line that closes it with [">>>>>>> "], and no region begins
    before the line after the end of the previous one.  The detection
    [has_conflict_markers] is a test for a substring: it reports a marker
    exactly when seven [<] occur somewhere in the text, at the beginning
    of a line or not. *)
Theorem scan_structural_lines (disk : str) (rs : list ConflictRegion) :
  scan disk = Done rs ->
  Forall (fun r => exists s m e,
            lines_of disk !! ours_start_line r = Some s /\
            lines_of disk !! separator_line r = Some m /\
            lines_of disk !! theirs_end_line r = Some e /\
            (exists rest, s = START ++ rest) /\
            (exists rest, m = SEPARATOR ++ rest) /\
            (exists rest, e = END_ ++ rest)) rs /\
  ordered_from 0 rs /\
  (has_conflict_markers (read_text disk) = true <->
   exists a b, read_text disk = a ++ DETECT ++ b).
Proof.
  intros Hrs. apply scan_loop_spec in Hrs as [Hall Hord].
  split; [|split; [done|apply contains_iff]].
  eapply Forall_impl; [exact Hall|]. intros r Hd.
  destruct (dl_start _ _ Hd) as (s & Hs & Hs').
  destruct (dl_separator _ _ Hd) as (m & Hm & Hm').
  destruct (dl_end _ _ Hd) as (e & He & He').
  exists s, m, e. repeat split; try done; by apply startswith_inv.
Qed.

Lemma scan_structural_lines_witness :
  scan one_region
    = Done [ {| ours_start_line := 1; separator_line := 3;
                theirs_end_line := 5;
                ours_text := [ln "mine"]; theirs_text := [ln "yours"] |} ] /\
  ordered_from 0
    [ {| ours_start_line := 1; separator_line := 3; theirs_end_line := 5;
         ours_text := [ln "mine"]; theirs_text := [ln "yours"] |} ].
Proof.
  split; [vm_compute; reflexivity|].
  apply (scan_structural_lines one_region). vm_compute. reflexivity.
Defined.

(** C5: a file none of whose lines begins with the start marker has no
    region; [resolve] is a no-op on it and leaves its content as it is.
    (The walk itself copies every line: joined, the lines it collects are
    the text that was read.) *)
Theorem resolve_unmarked (pol : policy) (disk : str) :
  Forall (fun l => is_start l = false) (lines_of disk) ->
  scan disk = Done [] /\
  resolve pol disk = Done NoOp /\
  content_after disk (resolve pol disk) = disk /\
  resolve_lines pol (lines_of disk) = Done (lines_of disk) /\
  join (lines_of disk) = read_text disk.
Proof.
  intros Hall.
  assert (scan disk = Done []) as Hscan.
  { unfold scan, scan_lines. apply scan_loop_no_start; [lia|done]. }
  split; [done|].
  assert (resolve pol disk = Done NoOp) as Hres.
  { by rewrite resolve_eq, Hscan. }
  split; [done|]. split; [by rewrite Hres|]. split.
  - rewrite resolve_lines_scan. unfold scan in Hscan. rewrite Hscan.
    simpl. by rewrite drop_0.
  - apply join_splitlines.
Qed.

Lemma resolve_unmarked_witness :
  forallb (fun l => negb (is_start l)) (lines_of marker_in_text) = true /\
  resolve (fun _ => TakeBoth) marker_in_text = Done NoOp.
Proof.
  split; [vm_compute; reflexivity|].
  apply (resolve_unmarked (fun _ => TakeBoth) marker_in_text).
  vm_compute. repeat constructor.
Defined.

(** C6, as stated, fails: in the file [mixed_endings] the two lines before
    the region end in CR LF and in a lone CR.  The region is found on the
    third line, and in the rewritten file the two lines before it end in
    LF: their line endings are not those of the file. *)
Lemma resolve_changes_line_endings :
  splitlines mixed_endings
    = [lit "keep" ++ [CR; LF]; lit "old" ++ [CR]; ln "<<<<<<< HEAD";
       ln "mine"; ln "======="; ln "yours"; ln ">>>>>>> feature"] /\
  scan mixed_endings
    = Done [ {| ours_start_line := 2; separator_line := 4;
                theirs_end_line := 6;
                ours_text := [ln "mine"]; theirs_text := [ln "yours"] |} ] /\
  resolve (fun _ => TakeOurs) mixed_endings
    = Done (RewrittenFile (ln "keep" ++ ln "old" ++ ln "mine")).
Proof.
  repeat split; vm_compute; reflexivity.
Qed.

(** A line outside the spans of all the regions is among the lines
    written. *)
Lemma rebuild_outside (pol : policy) (lines : list str) (pos : nat)
    (rs : list ConflictRegion) (k : nat) (l : str) :
  pos <= k -> lines !! k = Some l ->
  Forall (fun r => k < ours_start_line r \/ theirs_end_line r < k) rs ->
  l ∈ rebuild pol lines pos rs.
Proof.
  intros Hk Hl Hout. revert pos Hk.
  induction Hout as [|r rs Hr _ IH]; intros pos Hk; simpl.
  - apply (list_elem_of_lookup_2 _ (k - pos)). rewrite lookup_drop.
    by replace (pos + (k - pos)) with k by lia.
  - destruct Hr as [Hr|Hr].
    + apply elem_of_app. left. unfold slice.
      apply (list_elem_of_lookup_2 _ (k - pos)).
      rewrite lookup_take_lt by lia. rewrite lookup_drop.
      by replace (pos + (k - pos)) with k by lia.
    + apply elem_of_app. right. apply elem_of_app. right. apply IH. lia.
Qed.

(** C6, amended: [resolve] works on the text as it is read, in which
    CR LF and CR have become LF.  When the scan finds regions, [resolve]
    returns the file in which every line of that text outside the spans
    of the regions is copied unchanged and in order, trailing lines
    included, and each span, from its start marker line to its end marker
    line, is replaced by the chosen text; the lines of the rewritten file
    are the lines so obtained.  The text read differs from the content of
    the file only in the line endings with CR: a file without CR is read
    as it is. *)
Theorem resolve_copies_outside (pol : policy) (disk : str)
    (rs : list ConflictRegion) :
  scan disk = Done rs -> rs <> [] ->
  resolve pol disk
    = Done (RewrittenFile (join (rebuild pol (lines_of disk) 0 rs))) /\
  lines_of (join (rebuild pol (lines_of disk) 0 rs))
    = rebuild pol (lines_of disk) 0 rs /\
  (forall k l,
     lines_of disk !! k = Some l ->
     Forall (fun r => k < ours_start_line r \/ theirs_end_line r < k) rs ->
     l ∈ rebuild pol (lines_of disk) 0 rs) /\
  join (lines_of disk) = read_text disk /\
  (CR ∉ disk -> read_text disk = disk).
Proof.
  intros Hrs Hne. split.
  { rewrite resolve_eq, Hrs. cbn [bind]. by destruct rs. }
  split; [exact (lines_of_rewritten pol disk _ Hrs)|].
  split.
  { intros k l Hl Hout. apply (rebuild_outside _ _ 0 rs k l); [lia|done|done]. }
  split; [apply join_splitlines|apply universal_newlines_id].
Qed.

Lemma resolve_copies_outside_witness :
  scan one_region
    = Done [ {| ours_start_line := 1; separator_line := 3;
                theirs_end_line := 5;
                ours_text := [ln "mine"]; theirs_text := [ln "yours"] |} ] /\
  resolve (fun _ => TakeTheirs) one_region
    = Done (RewrittenFile
              (join (rebuild (fun _ => TakeTheirs) (lines_of one_region) 0
                 [ {| ours_start_line := 1; separator_line := 3;
                      theirs_end_line := 5;
                      ours_text := [ln "mine"];
                      theirs_text := [ln "yours"] |} ]))).
Proof.
  split; [vm_compute; reflexivity|].
  apply (resolve_copies_outside (fun _ => TakeTheirs) one_region
           [ {| ours_start_line := 1; separator_line := 3;
                theirs_end_line := 5;
                ours_text := [ln "mine"]; theirs_text := [ln "yours"] |} ]).
  - vm_compute. reflexivity.
  - discriminate.
Defined.

(** Two regions resolved differently: "ours" for the first, "theirs" for
    the second.  The line between them and the last line, which has no
    line break, are copied. *)
Example two_regions_resolved :
  resolve (fun r => if ours_start_line r =? 0 then TakeOurs else TakeTheirs)
          two_regions
    = Done (RewrittenFile (ln "a1" ++ ln "between" ++ ln "b2" ++ lit "end")).
Proof.
  vm_compute. reflexivity.
Qed.

(** C7, amended: for a well-formed file [resolve] ends, and a scan of
    the content the file has afterwards finds no region, whatever is
    chosen for each region: no line of that content begins with the start
    marker.  The detection is another test: [has_conflict_markers]
    answers [True] on that content exactly when seven [<] occur somewhere
    in it, in the middle of a line or not followed by a space. *)
Theorem scan_after_resolve (pol : policy) (disk : str) :
  well_formed (lines_of disk) = true ->
  exists o,
    resolve pol disk = Done o /\
    scan (content_after disk (resolve pol disk)) = Done [] /\
    Forall (fun l => is_start l = false)
      (lines_of (content_after disk (resolve pol disk))) /\
    (has_conflict_markers (read_text (content_after disk (resolve pol disk)))
       = true <->
     exists a b,
       read_text (content_after disk (resolve pol disk)) = a ++ DETECT ++ b).
Proof.
  intros Hwf.
  destruct (wf_scan pol (lines_of disk) (length (lines_of disk)) ltac:(lia)
              (length (lines_of disk)) (lines_of disk) [] ltac:(lia) eq_refl Hwf)
    as (rs & Hrs & Hout).
  cbn [length] in Hrs, Hout.
  assert (scan disk = Done rs) as Hscan by done.
  rewrite resolve_eq, Hscan. cbn [bind].
  destruct rs as [|r rs].
  - exists NoOp. split; [done|]. cbn [content_after]. split; [done|].
    split; [|apply contains_iff].
    cbn [rebuild] in Hout. by rewrite drop_0 in Hout.
  - eexists. split; [done|]. cbn [content_after].
    unfold scan. rewrite (lines_of_rewritten pol disk _ Hscan).
    split; [|split; [exact Hout|apply contains_iff]].
    unfold scan_lines. apply scan_loop_no_start; [lia|].
    exact Hout.
Qed.

Lemma scan_after_resolve_witness :
  well_formed (lines_of one_region) = true /\
  exists o,
    resolve (fun _ => TakeBoth) one_region = Done o /\
    scan (content_after one_region (resolve (fun _ => TakeBoth) one_region))
      = Done [].
Proof.
  split; [vm_compute; reflexivity|].
  destruct (scan_after_resolve (fun _ => TakeBoth) one_region)
    as (o & Ho & Hscan & _).
  - vm_compute. reflexivity.
  - exists o. split; [exact Ho|exact Hscan].
Defined.

(** C7, as stated, fails for the detection: [marker_in_payload] is well
    formed, its "ours" side holds seven [<] not followed by a space, and
    the file rewritten with "ours" has no region while
    [has_conflict_markers] still answers [True] on it: the resolved file
    is still detected as conflicted. *)
Example resolved_still_detected :
  well_formed (lines_of marker_in_payload) = true /\
  resolve (fun _ => TakeOurs) marker_in_payload
    = Done (RewrittenFile (ln "<<<<<<<mine")) /\
  scan (ln "<<<<<<<mine") = Done [] /\
  has_conflict_markers (read_text (ln "<<<<<<<mine")) = true.
Proof.
  repeat split; vm_compute; reflexivity.
Qed.

(** Without the condition on nesting the property is lost: in
    [nested_start] the "ours" side holds a line beginning with the start
    marker; the scan finds one region, and the file rewritten with "ours"
    has a start marker and no separator. *)
Example nested_start_rescan :
  well_formed (lines_of nested_start) = false /\
  (exists r, scan nested_start = Done [r]) /\
  scan (content_after nested_start (resolve (fun _ => TakeOurs) nested_start))
    = Raise IndexError.
Proof.
  split; [vm_compute; reflexivity|]. split; [eexists|]; vm_compute; reflexivity.
Qed.

(** C8: in every region found by a scan, the start marker line comes
    before the separator line, and the separator line before the end
    marker line. *)
Theorem scan_region_order (disk : str) (rs : list ConflictRegion)
    (r : ConflictRegion) :
  scan disk = Done rs -> r ∈ rs ->
  ours_start_line r < separator_line r < theirs_end_line r.
Proof.
  intros Hrs Hr. apply scan_loop_spec in Hrs as [Hall _].
  apply (dl_order (lines_of disk)).
  by apply (proj1 (Forall_forall _ _) Hall).
Qed.

Lemma scan_region_order_witness :
  scan empty_ours
    = Done [ {| ours_start_line := 0; separator_line := 1;
                theirs_end_line := 3;
                ours_text := []; theirs_text := [ln "yours"] |} ] /\
  0 < 1 < 3.
Proof.
  split; [vm_compute; reflexivity|].
  apply (scan_region_order empty_ours
           [ {| ours_start_line := 0; separator_line := 1;
                theirs_end_line := 3;
                ours_text := []; theirs_text := [ln "yours"] |} ]
           {| ours_start_line := 0; separator_line := 1;
              theirs_end_line := 3;
              ours_text := []; theirs_text := [ln "yours"] |}).
  - vm_compute. reflexivity.
  - apply list_elem_of_here.
Defined.

(** The variable [ours_start] of the source is the index of the first
    line of the "ours" side, one more than [ours_start_line]; when that
    side is empty it is the index of the separator. *)
Example empty_ours_locate :
  locate (lines_of empty_ours) 0 = Done (1, 2, 3) /\
  separator_line (region_at (lines_of empty_ours) (1, 2, 3)) = 1.
Proof.
  split; vm_compute; reflexivity.
Qed.

(** C10: the three prefixes are not matched alike.  A line opens a region
    only if it begins with seven [<] and a space, and closes one only if
    it begins with seven [>] and a space; the boundary between the two
    sides is the first line after the start marker that begins with seven
    [=], whatever follows them.  In every region found the three lines
    are of these forms, and the line that opens it is never the bare
    start marker, with or without a line break. *)
Theorem marker_asymmetry (disk : str) (rs : list ConflictRegion) :
  scan disk = Done rs ->
  Forall (delimited (lines_of disk)) rs /\
  Forall (fun r =>
            lines_of disk !! ours_start_line r <> Some (lit "<<<<<<<") /\
            lines_of disk !! ours_start_line r <> Some (ln "<<<<<<<")) rs /\
  (forall l, is_start l = true <->
             exists rest, l = lit "<<<<<<<" ++ lit " " ++ rest) /\
  (forall l, is_end l = true <->
             exists rest, l = lit ">>>>>>>" ++ lit " " ++ rest) /\
  (forall l, is_separator l = true <->
             exists rest, l = lit "=======" ++ rest).
Proof.
  intros Hrs. apply scan_loop_spec in Hrs as [Hall _].
  split; [done|]. split.
  - eapply Forall_impl; [exact Hall|]. intros r Hd.
    destruct (dl_start _ _ Hd) as (s & Hs & Hs').
    rewrite Hs. split; intros [= ->]; vm_compute in Hs'; discriminate.
  - repeat split; intros H; try (by apply startswith_inv in H);
      destruct H as [rest ->]; reflexivity.
Qed.

Lemma marker_asymmetry_witness :
  scan bare_end_first
    = Done [ {| ours_start_line := 0; separator_line := 2;
                theirs_end_line := 5;
                ours_text := [ln "mine"];
                theirs_text := [ln "yours"; ln ">>>>>>>"] |} ] /\
  Forall (delimited (lines_of bare_end_first))
    [ {| ours_start_line := 0; separator_line := 2; theirs_end_line := 5;
         ours_text := [ln "mine"];
         theirs_text := [ln "yours"; ln ">>>>>>>"] |} ].
Proof.
  split; [vm_compute; reflexivity|].
  apply (marker_asymmetry bare_end_first). vm_compute. reflexivity.
Defined.

(** The bare markers delimit nothing: the file [bare_markers] has no
    region, although the detection reports a marker in it. *)
Example bare_markers_scan :
  scan bare_markers = Done [] /\
  has_conflict_markers (read_text bare_markers) = true /\
  is_start (ln "<<<<<<<") = false /\ is_end (ln ">>>>>>>") = false /\
  is_separator (ln "=======") = true.
Proof.
  repeat split; vm_compute; reflexivity.
Qed.

(** * Further properties of the code *)

(** ** [run] *)

Module RunFacts.
Import Executor.

(** With [check] set, as it is by default, a result that is returned
    reports success: its [returncode] is zero.  The result is for the
    command that was passed. *)
Theorem run_checked_returns_zero (os : system) (cmd : str) (capture : bool)
    (r : CompletedProcess) :
  run os cmd true capture = Returned r ->
  returncode r = 0%Z /\ args r = cmd.
Proof.
  rewrite ExecutorFacts.run_unfold. unfold subprocess_run.
  destruct (fsencode os cmd) as [raw|]; [|done].
  destruct (has_nul raw); [done|].
  destruct (spawn os raw) as [code out err|]; [|done].
  assert (forall o e, completed cmd true code o e = Returned r ->
                      returncode r = 0%Z /\ args r = cmd) as Hdone.
  { intros o e. unfold completed.
    destruct (code =? 0)%Z eqn:Hcode; simpl; [|done].
    intros [= <-]. simpl. split; [by apply Z.eqb_eq|done]. }
  destruct capture; [|apply Hdone].
  destruct (captured os true out) as [o|]; [|done].
  destruct (captured os true err) as [e|]; [|done]. apply Hdone.
Qed.

Lemma run_checked_returns_zero_witness :
  run (ascii_system (fun _ => Exited 0 (raw "ok") [])) (lit "git fetch")
      true true
    = Returned {| args := lit "git fetch"; returncode := 0;
                  stdout := Some (Text (lit "ok"));
                  stderr := Some (Text []) |} /\
  returncode {| args := lit "git fetch"; returncode := 0;
                stdout := Some (Text (lit "ok"));
                stderr := Some (Text []) |} = 0%Z.
Proof.
  split; [vm_compute; reflexivity|].
  apply (run_checked_returns_zero
           (ascii_system (fun _ => Exited 0 (raw "ok") []))
           (lit "git fetch") true).
  vm_compute. reflexivity.
Defined.

(** [run] raises [CalledProcessError] only when [check] is set and the
    process exited with a status other than zero; the exception carries
    that status and the command.  Without capture its two streams are
    [None]; with capture they are the texts decoded from what the process
    wrote, with CR LF and CR replaced by LF. *)
Theorem run_called_process_error (os : system) (cmd : str)
    (check capture : bool) (code : Z) (c : str) (o e : option stream) :
  run os cmd check capture = Raised (CalledProcessError code c o e) ->
  check = true /\ code <> 0%Z /\ c = cmd /\
  exists raw out err,
    fsencode os cmd = Some raw /\
    spawn os raw = Exited code out err /\
    if capture then
      exists to te,
        decode os out = Some to /\ decode os err = Some te /\
        o = Some (Text (universal_newlines to)) /\
        e = Some (Text (universal_newlines te))
    else o = None /\ e = None.
Proof.
  rewrite ExecutorFacts.run_unfold. unfold subprocess_run.
  destruct (fsencode os cmd) as [raw|] eqn:Henc; [|done].
  destruct (has_nul raw); [done|].
  destruct (spawn os raw) as [code' out err|] eqn:Hsp; [|done].
  assert (forall o' e',
            completed cmd check code' o' e'
              = Raised (CalledProcessError code c o e) ->
            check = true /\ code <> 0%Z /\ c = cmd /\ code' = code /\
            o' = o /\ e' = e) as Hdone.
  { intros o' e'. unfold completed. destruct check; simpl; [|done].
    destruct (code' =? 0)%Z eqn:Hcode; simpl; [done|].
    intros [= <- <- <- <-]. by apply Z.eqb_neq in Hcode. }
  destruct capture.
  - unfold captured.
    destruct (decode os out) as [to|] eqn:Hto; [|done].
    destruct (decode os err) as [te|] eqn:Hte; [|done].
    intros H. destruct (Hdone _ _ H) as (-> & Hne & -> & -> & <- & <-).
    repeat split; try done. exists raw, out, err.
    repeat split; try done. by exists to, te.
  - intros H. destruct (Hdone _ _ H) as (-> & Hne & -> & -> & <- & <-).
    repeat split; try done. by exists raw, out, err.
Qed.

Lemma run_called_process_error_witness :
  run (ascii_system (fun _ => Exited 128 [] (raw "fatal")))
      (lit "git rebase --continue") true true
    = Raised (CalledProcessError 128 (lit "git rebase --continue")
                (Some (Text [])) (Some (Text (lit "fatal")))) /\
  true = true /\ 128%Z <> 0%Z.
Proof.
  split; [vm_compute; reflexivity|].
  destruct (run_called_process_error
              (ascii_system (fun _ => Exited 128 [] (raw "fatal")))
              (lit "git rebase --continue") true true 128
              (lit "git rebase --continue")
              (Some (Text [])) (Some (Text (lit "fatal"))))
    as (Hcheck & Hcode & _).
  - vm_compute. reflexivity.
  - split; [exact Hcheck|exact Hcode].
Defined.

(** With [capture=True] a result that is returned holds, for each of the
    two streams, the text decoded from what the process wrote with CR LF
    and CR replaced by LF, so without any carriage return, and the exit
    status of the process. *)
Theorem run_capture_streams (os : system) (cmd : str) (check : bool)
    (r : CompletedProcess) :
  run os cmd check true = Returned r ->
  exists raw out err to te,
    fsencode os cmd = Some raw /\
    spawn os raw = Exited (returncode r) out err /\
    decode os out = Some to /\ decode os err = Some te /\
    stdout r = Some (Text (universal_newlines to)) /\
    stderr r = Some (Text (universal_newlines te)) /\
    (CR ∉ universal_newlines to) /\ (CR ∉ universal_newlines te).
Proof.
  unfold run, subprocess_run.
  destruct (fsencode os cmd) as [raw|] eqn:Henc; [|done].
  destruct (has_nul raw); [done|].
  destruct (spawn os raw) as [code out err|] eqn:Hsp; [|done].
  unfold captured.
  destruct (decode os out) as [to|] eqn:Hto; [|done].
  destruct (decode os err) as [te|] eqn:Hte; [|done].
  unfold completed.
  destruct (check && negb (code =? 0)%Z); [done|].
  intros [= <-]. simpl. exists raw, out, err, to, te.
  repeat split; try done; apply universal_newlines_no_CR.
Qed.

Lemma run_capture_streams_witness :
  run (ascii_system
         (fun _ => Exited 1 (raw "CONFLICT") [Byte.x61; Byte.x0d; Byte.x0a]))
      (lit "git pull --rebase") false true
    = Returned {| args := lit "git pull --rebase"; returncode := 1;
                  stdout := Some (Text (lit "CONFLICT"));
                  stderr := Some (Text (ln "a")) |} /\
  exists encoded out err to te,
    fsencode
      (ascii_system
         (fun _ => Exited 1 (raw "CONFLICT") [Byte.x61; Byte.x0d; Byte.x0a]))
      (lit "git pull --rebase") = Some encoded /\
    spawn
      (ascii_system
         (fun _ => Exited 1 (raw "CONFLICT") [Byte.x61; Byte.x0d; Byte.x0a]))
      encoded = Exited 1 out err /\
    ascii_decode out = Some to /\ ascii_decode err = Some te /\
    Some (Text (lit "CONFLICT")) = Some (Text (universal_newlines to)) /\
    Some (Text (ln "a")) = Some (Text (universal_newlines te)) /\
    (CR ∉ universal_newlines to) /\ (CR ∉ universal_newlines te).
Proof.
  split; [vm_compute; reflexivity|].
  apply (run_capture_streams
           (ascii_system
              (fun _ => Exited 1 (raw "CONFLICT")
                               [Byte.x61; Byte.x0d; Byte.x0a]))
           (lit "git pull --rebase") false
           {| args := lit "git pull --rebase"; returncode := 1;
              stdout := Some (Text (lit "CONFLICT"));
              stderr := Some (Text (ln "a")) |}).
  vm_compute. reflexivity.
Defined.

End RunFacts.

(** ** [has_conflict_markers] *)

(** A text on which [has_conflict_markers] answers [False] has no line
    beginning with the start marker: on its lines the walk of
    [resolve_file] never enters the region branch, finds no region and
    raises nothing. *)
Theorem undetected_no_region (text : str) :
  has_conflict_markers text = false ->
  Forall (fun l => is_start l = false) (splitlines text) /\
  scan_lines (splitlines text) = Done [].
Proof.
  intros Hdet.
  assert (Forall (fun l => is_start l = false) (splitlines text)) as Hall.
  { apply Forall_forall. intros l Hl.
    destruct (is_start l) eqn:Hstart; [|done].
    apply startswith_inv in Hstart as [rest ->].
    apply line_in_text in Hl as (a & b & Htext).
    rewrite join_splitlines in Htext.
    assert (has_conflict_markers text = true) as Hyes.
    { apply contains_iff. exists a, (32%N :: rest ++ b).
      rewrite Htext. unfold START, DETECT. simpl. done. }
    congruence. }
  split; [done|]. unfold scan_lines. apply scan_loop_no_start; [lia|done].
Qed.

Lemma undetected_no_region_witness :
  has_conflict_markers (ln "intro" ++ ln "=======" ++ ln "outro") = false /\
  scan_lines (splitlines (ln "intro" ++ ln "=======" ++ ln "outro")) = Done [].
Proof.
  split; [vm_compute; reflexivity|].
  apply (undetected_no_region (ln "intro" ++ ln "=======" ++ ln "outro")).
  vm_compute. reflexivity.
Defined.

(** Text added before or after a text never hides a marker that
    [has_conflict_markers] finds in it. *)
Theorem detection_in_context (before text after : str) :
  has_conflict_markers text = true ->
  has_conflict_markers (before ++ text ++ after) = true.
Proof.
  unfold has_conflict_markers. rewrite !contains_iff.
  intros (a & b & ->). exists (before ++ a), (b ++ after).
  by rewrite <- !app_assoc.
Qed.

Lemma detection_in_context_witness :
  has_conflict_markers (lit "<<<<<<<") = true /\
  has_conflict_markers (lit "x = '" ++ lit "<<<<<<<" ++ lit "'") = true.
Proof.
  split; [vm_compute; reflexivity|].
  apply (detection_in_context (lit "x = '") (lit "<<<<<<<") (lit "'")).
  vm_compute. reflexivity.
Defined.

(** ** The two searches of [resolve_file] *)

(** [while not lines[i].startswith(m): i += 1] ends with [i = j] exactly
    when [j] is the first index from [i] on of a line that begins with
    the marker. *)
Theorem search_stops_at_first (p : str -> bool) (lines : list str) (i j : nat) :
  find_from p lines i = Done j <->
  i <= j /\ (exists l, lines !! j = Some l /\ p l = true) /\
  (forall k l, i <= k < j -> lines !! k = Some l -> p l = false).
Proof.
  split.
  - apply find_from_Done.
  - intros (Hij & (l & Hl & Hp) & Hfirst). by apply (find_from_first _ _ _ _ l).
Qed.

(** The same loop raises [IndexError] exactly when no line from [i] on
    begins with the marker: the index then runs past the last line. *)
Theorem search_index_error (p : str -> bool) (lines : list str) (i : nat) :
  find_from p lines i = Raise IndexError <->
  (forall k l, i <= k -> lines !! k = Some l -> p l = false).
Proof.
  split.
  - apply find_from_Raise.
  - apply find_from_none.
Qed.

(** When the two searches succeed at a start marker line, the file is
    that line's predecessors, the start marker line, the lines shown as
    "YOUR version", the separator line, the lines shown as "THEIR
    version", the end marker line, and the lines after it: the two texts
    shown and the three marker lines make up the span, with nothing left
    out and nothing twice.  No line shown as "YOUR version" begins with
    the separator, and no line shown as "THEIR version" begins with the
    end marker. *)
Theorem locate_partition (lines : list str) (i : nat) (s : str)
    (ours_start theirs_start theirs_end : nat) :
  lines !! i = Some s -> is_start s = true ->
  locate lines i = Done (ours_start, theirs_start, theirs_end) ->
  exists m e,
    lines = take i lines ++ s ::
            slice lines ours_start (theirs_start - 1) ++ m ::
            slice lines theirs_start theirs_end ++ e ::
            drop (S theirs_end) lines /\
    is_separator m = true /\ is_end e = true /\
    Forall (fun l => is_separator l = false)
      (slice lines ours_start (theirs_start - 1)) /\
    Forall (fun l => is_end l = false) (slice lines theirs_start theirs_end) /\
    ours_start = i + 1 /\
    length (slice lines ours_start (theirs_start - 1))
      = theirs_start - 1 - ours_start /\
    length (slice lines theirs_start theirs_end) = theirs_end - theirs_start.
Proof.
  intros Hs Hstart Hloc.
  apply locate_inv in Hloc as (i1 & i2 & E1 & E2 & [= -> -> ->]).
  apply find_from_Done in E1 as (H1 & (m & Hm & Hsep) & Hfirst1).
  apply find_from_Done in E2 as (H2 & (e & He & Hend) & Hfirst2).
  assert (i <> i1) as Hne1.
  { intros ->. apply start_not_separator in Hstart. congruence. }
  assert (i1 <> i2) as Hne2.
  { intros ->. apply separator_not_end in Hsep. congruence. }
  pose proof (lookup_lt_Some _ _ _ He) as Hlen.
  rewrite !Nat.add_sub, !Nat.add_1_r.
  exists m, e. split; [|repeat split; try done].
  - unfold slice.
    rewrite <- (take_drop i lines) at 1. f_equal.
    rewrite (drop_S _ _ _ Hs). f_equal.
    rewrite <- (take_drop (i1 - S i) (drop (S i) lines)) at 1. f_equal.
    rewrite drop_drop. replace (S i + (i1 - S i)) with i1 by lia.
    rewrite (drop_S _ _ _ Hm). f_equal.
    rewrite <- (take_drop (i2 - S i1) (drop (S i1) lines)) at 1. f_equal.
    rewrite drop_drop. replace (S i1 + (i2 - S i1)) with i2 by lia.
    by rewrite (drop_S _ _ _ He).
  - apply Forall_lookup. intros k l Hl. unfold slice in Hl.
    apply lookup_take_Some in Hl as [Hl Hk]. rewrite lookup_drop in Hl.
    apply (Hfirst1 (S i + k)); [lia|done].
  - apply Forall_lookup. intros k l Hl. unfold slice in Hl.
    apply lookup_take_Some in Hl as [Hl Hk]. rewrite lookup_drop in Hl.
    apply (Hfirst2 (S i1 + k)); [lia|done].
  - unfold slice. rewrite length_take, length_drop. lia.
  - unfold slice. rewrite length_take, length_drop. lia.
Qed.

Lemma locate_partition_witness :
  locate (lines_of one_region) 1 = Done (2, 4, 5) /\
  exists m e,
    lines_of one_region
      = take 1 (lines_of one_region) ++ ln "<<<<<<< HEAD" ::
        slice (lines_of one_region) 2 (4 - 1) ++ m ::
        slice (lines_of one_region) 4 5 ++ e ::
        drop 6 (lines_of one_region).
Proof.
  split; [vm_compute; reflexivity|].
  destruct (locate_partition (lines_of one_region) 1 (ln "<<<<<<< HEAD") 2 4 5)
    as (m & e & Hparts & _).
  - vm_compute. reflexivity.
  - vm_compute. reflexivity.
  - vm_compute. reflexivity.
  - exists m, e. exact Hparts.
Defined.

(** The region branch raises [IndexError] in two cases and in no other:
    no line from the start marker on begins with the separator, or a
    separator is found and no line from it on begins with the end
    marker. *)
Theorem locate_index_error (lines : list str) (i : nat) :
  locate lines i = Raise IndexError <->
  (forall k l, i <= k -> lines !! k = Some l -> is_separator l = false) \/
  (exists i1,
     find_from is_separator lines i = Done i1 /\
     forall k l, i1 <= k -> lines !! k = Some l -> is_end l = false).
Proof.
  unfold locate. split.
  - destruct (find_from is_separator lines i) as [i1|[]|] eqn:E1; cbn [bind].
    + destruct (find_from is_end lines i1) as [i2|[]|] eqn:E2; cbn [bind];
        try done.
      intros _. right. exists i1. split; [done|].
      exact (find_from_Raise _ _ _ _ E2).
    + intros _. left. exact (find_from_Raise _ _ _ _ E1).
    + done.
  - intros [Hnone|(i1 & E1 & Hnone)].
    + by rewrite find_from_none.
    + rewrite E1. cbn [bind]. by rewrite find_from_none.
Qed.

(** ** The walk as a whole *)

Lemma scan_missing_separator_witness :
  lines_of no_separator = [] ++ ln "<<<<<<< HEAD" :: [ln "mine"] /\
  scan_lines (lines_of no_separator) = Raise IndexError.
Proof.
  split; [vm_compute; reflexivity|].
  apply (scan_missing_separator (lines_of no_separator) []
           (ln "<<<<<<< HEAD") [ln "mine"]).
  - vm_compute. reflexivity.
  - constructor.
  - vm_compute. reflexivity.
  - repeat constructor.
Defined.

Lemma scan_raise (lines : list str) (fuel : nat) (i : nat) (l : str) (e : exn) :
  length lines <= fuel ->
  lines !! i = Some l -> is_start l = true -> locate lines i = Raise e ->
  scan_loop fuel lines i = Raise e.
Proof.
  intros Hfuel Hl Hstart Hloc. pose proof (lookup_lt_Some _ _ _ Hl).
  destruct fuel as [|fuel']; [lia|].
  simpl. by rewrite Hl, Hstart, Hloc.
Qed.

Lemma locate_no_end (lines pre : list str) (s : str) (ours : list str)
    (m : str) (rest : list str) :
  lines = pre ++ s :: ours ++ m :: rest ->
  is_start s = true ->
  Forall (fun l => is_separator l = false) ours -> is_separator m = true ->
  Forall (fun l => is_end l = false) rest ->
  locate lines (length pre) = Raise IndexError.
Proof.
  intros Hlines Hs Hours Hm Hrest. unfold locate.
  assert (Forall (fun l => is_separator l = false) (s :: ours)) as Hours'.
  { constructor; [by apply start_not_separator|done]. }
  pose proof (find_from_app is_separator pre (s :: ours) m rest Hours' Hm) as H1.
  cbn [app length] in H1. rewrite <- Hlines in H1. rewrite H1. cbn [bind].
  rewrite find_from_none; [done|].
  intros k l Hk Hl. rewrite Hlines in Hl.
  change (pre ++ s :: ours ++ m :: rest)
    with (pre ++ (s :: ours) ++ m :: rest) in Hl.
  rewrite app_assoc in Hl.
  rewrite lookup_app_r in Hl by (rewrite length_app; simpl; lia).
  assert (Forall (fun l => is_end l = false) (m :: rest)) as Hall.
  { constructor; [by apply separator_not_end|done]. }
  by apply (proj1 (Forall_lookup _ _) Hall _ l Hl).
Qed.

(** A file in which the first start marker line is followed by a
    separator line and by no end marker line makes the walk raise
    [IndexError]: the second search runs past the last line. *)
Theorem scan_missing_end (lines pre : list str) (s : str) (ours : list str)
    (m : str) (rest : list str) :
  lines = pre ++ s :: ours ++ m :: rest ->
  Forall (fun l => is_start l = false) pre ->
  is_start s = true ->
  Forall (fun l => is_separator l = false) ours ->
  is_separator m = true ->
  Forall (fun l => is_end l = false) rest ->
  scan_lines lines = Raise IndexError.
Proof.
  intros Hlines Hpre Hs Hours Hm Hrest. unfold scan_lines.
  assert (length lines <= length lines) as Hfuel by lia.
  pose proof (scan_skip_run lines _ Hfuel [] pre _ Hlines Hpre) as Hrun.
  cbn [length Nat.add] in Hrun. rewrite Hrun.
  apply (scan_raise lines _ _ s); [done| |done|].
  - rewrite Hlines. by apply list_lookup_middle.
  - by apply (locate_no_end lines pre s ours m rest).
Qed.

Lemma scan_missing_end_witness :
  lines_of (ln "<<<<<<< HEAD" ++ ln "mine" ++ ln "=======" ++ ln "yours")
    = [] ++ ln "<<<<<<< HEAD" :: [ln "mine"] ++ ln "=======" :: [ln "yours"] /\
  scan_lines
    (lines_of (ln "<<<<<<< HEAD" ++ ln "mine" ++ ln "=======" ++ ln "yours"))
    = Raise IndexError.
Proof.
  split; [vm_compute; reflexivity|].
  apply (scan_missing_end _ [] (ln "<<<<<<< HEAD") [ln "mine"]
           (ln "=======") [ln "yours"]).
  - vm_compute. reflexivity.
  - constructor.
  - vm_compute. reflexivity.
  - repeat constructor.
  - vm_compute. reflexivity.
  - repeat constructor.
Defined.

Section Closed.
Import Closing.

Lemma first_split (p : str -> bool) (ls : list str) :
  (exists a x b, ls = a ++ x :: b /\
                 Forall (fun l => p l = false) a /\ p x = true) \/
  Forall (fun l => p l = false) ls.
Proof.
  induction ls as [|l ls IH].
  - right. constructor.
  - destruct (p l) eqn:Hp.
    + left. by exists [], l, ls.
    + destruct IH as [(a & x & b & -> & Ha & Hx)|Hall].
      * left. exists (l :: a), x, b. repeat split; try done. by constructor.
      * right. by constructor.
Qed.

Lemma closed_ours_none (rest : list str) :
  Forall (fun l => is_separator l = false) rest ->
  closed_from InOurs rest = false.
Proof.
  induction 1 as [|l rest Hl _ IH]; simpl; [done|]. by rewrite Hl.
Qed.

Lemma closed_ours_split (ours : list str) (m : str) (rest : list str) :
  Forall (fun l => is_separator l = false) ours -> is_separator m = true ->
  closed_from InOurs (ours ++ m :: rest) = closed_from InTheirs rest.
Proof.
  intros Hours Hm. induction Hours as [|l ours Hl _ IH]; simpl.
  - by rewrite Hm.
  - by rewrite Hl.
Qed.

Lemma closed_theirs_none (rest : list str) :
  Forall (fun l => is_end l = false) rest ->
  closed_from InTheirs rest = false.
Proof.
  induction 1 as [|l rest Hl _ IH]; simpl; [done|]. by rewrite Hl.
Qed.

Lemma closed_theirs_split (theirs : list str) (e : str) (rest : list str) :
  Forall (fun l => is_end l = false) theirs -> is_end e = true ->
  closed_from InTheirs (theirs ++ e :: rest) = closed_from Outside rest.
Proof.
  intros Ht He. induction Ht as [|l theirs Hl _ IH]; simpl.
  - by rewrite He.
  - by rewrite Hl.
Qed.

Context (lines : list str) (fuel : nat) (Hfuel : length lines <= fuel).

Lemma scan_closed_from (n : nat) (suf pre : list str) :
  length suf <= n -> lines = pre ++ suf ->
  match scan_loop fuel lines (length pre) with
  | Done _ => closed_from Outside suf = true
  | Raise _ => closed_from Outside suf = false
  | OutOfBudget => False
  end.
Proof.
  revert suf pre. induction n as [|n IH]; intros suf pre Hn Hlines.
  - destruct suf; [|simpl in Hn; lia].
    rewrite scan_end; [done|done|].
    rewrite Hlines, length_app. simpl. lia.
  - destruct suf as [|l rest].
    { rewrite scan_end; [done|done|].
      rewrite Hlines, length_app. simpl. lia. }
    simpl in Hn.
    assert (lines !! length pre = Some l) as Hl.
    { rewrite Hlines. by apply list_lookup_middle. }
    cbn [closed_from]. destruct (is_start l) eqn:Hstart.
    + destruct (first_split is_separator rest)
        as [(ours & m & rest1 & -> & Hours & Hm)|Hnone].
      2:{ rewrite (closed_ours_none _ Hnone).
          rewrite (scan_raise lines fuel _ l IndexError Hfuel Hl Hstart); [done|].
          unfold locate. rewrite find_from_none; [done|].
          intros k l' Hk Hl'. rewrite Hlines in Hl'.
          rewrite lookup_app_r in Hl' by lia.
          assert (Forall (fun l => is_separator l = false) (l :: rest)) as Hall.
          { constructor; [by apply start_not_separator|done]. }
          by apply (proj1 (Forall_lookup _ _) Hall _ l' Hl'). }
      rewrite (closed_ours_split _ _ _ Hours Hm).
      destruct (first_split is_end rest1)
        as [(theirs & e & rest2 & -> & Htheirs & He)|Hnone].
      2:{ rewrite (closed_theirs_none _ Hnone).
          rewrite (scan_raise lines fuel _ l IndexError Hfuel Hl Hstart); [done|].
          by apply (locate_no_end lines pre l ours m rest1). }
      rewrite (closed_theirs_split _ _ _ Htheirs He).
      pose proof (locate_decomposed pre l ours m theirs e rest2
                    Hstart Hours Hm Htheirs He) as Hloc.
      rewrite <- Hlines in Hloc.
      pose proof (region_decomposed pre l ours m theirs e rest2) as Hreg.
      rewrite <- Hlines in Hreg.
      rewrite (scan_region lines fuel Hfuel _ l _ Hl Hstart Hloc).
      rewrite Hreg. cbn [theirs_end_line].
      specialize (IH rest2 (pre ++ l :: ours ++ m :: theirs ++ [e])).
      replace (length (pre ++ l :: ours ++ m :: theirs ++ [e]))
        with (S (length pre + S (length ours) + S (length theirs))) in IH.
      2:{ rewrite !length_app. simpl. rewrite length_app. simpl.
          rewrite length_app. simpl. lia. }
      destruct (scan_loop fuel lines
                  (S (length pre + S (length ours) + S (length theirs))));
        cbn [bind]; apply IH.
      all: try (rewrite !length_app in Hn; simpl in Hn;
                rewrite length_app in Hn; simpl in Hn; lia).
      all: rewrite Hlines; rewrite <- app_assoc; simpl; do 2 f_equal;
        rewrite <- app_assoc; simpl; do 2 f_equal;
        rewrite <- app_assoc; done.
    + rewrite (scan_skip lines fuel Hfuel _ l Hl Hstart).
      specialize (IH rest (pre ++ [l])).
      rewrite length_app in IH. simpl in IH. rewrite Nat.add_1_r in IH.
      apply IH; [lia|]. rewrite Hlines, <- app_assoc. done.
Qed.

End Closed.

(** The searches of the walk, the prompts left aside: [scan_lines] comes
    to its end exactly on the files in which every region that is opened
    is closed, and raises [IndexError] on every other file. *)
Lemma scan_returns_iff_closed (lines : list str) :
  match scan_lines lines with
  | Done _ => Closing.closed lines = true
  | Raise _ => Closing.closed lines = false
  | OutOfBudget => False
  end.
Proof.
  unfold scan_lines, Closing.closed.
  apply (scan_closed_from lines (length lines) ltac:(lia)
           (length lines) lines []); [lia|done].
Qed.

Section WalkWithPrompts.
Import Closing Prompt Interactive.

Context (lower : str -> str) (lines : list str).

Lemma count_drop_S (p : str -> bool) (i : nat) (l : str) :
  lines !! i = Some l ->
  count p (drop i lines) = (if p l then 1 else 0) + count p (drop (S i) lines).
Proof.
  intros Hl. by rewrite (drop_S _ _ _ Hl).
Qed.

Lemma count_drop_le (p : str -> bool) (i j : nat) :
  i <= j -> count p (drop j lines) <= count p (drop i lines).
Proof.
  induction 1 as [|j Hij IH]; [done|].
  destruct (lines !! j) as [l|] eqn:Hl.
  - rewrite (count_drop_S p j l Hl) in IH. lia.
  - apply lookup_ge_None in Hl. rewrite drop_ge by lia. simpl. lia.
Qed.

Lemma prompt_answered (stdin : list str) :
  1 <= count (accepted lower) stdin ->
  exists c rest,
    prompt lower stdin = Chosen c rest /\
    count (accepted lower) stdin = S (count (accepted lower) rest).
Proof.
  induction stdin as [|x stdin IH]; simpl; [lia|].
  unfold accepted at 1 3. destruct (is_choice (lower (strip x))) eqn:Hx.
  - intros _. by exists (lower (strip x)), stdin.
  - simpl. intros H. destruct (IH H) as (c & rest & Hp & Hc).
    by exists c, rest.
Qed.

(** With answers enough for every start marker line left, the walk with
    its prompts ends as the searches alone do. *)
Lemma walk_loop_scan (fuel i : nat) (stdin : list str) :
  count is_start (drop i lines) <= count (accepted lower) stdin ->
  match walk_loop fuel lower lines i stdin, scan_loop fuel lines i with
  | Ended _, Done _ => True
  | IndexErrorRaised, Raise _ => True
  | BudgetUsedUp, OutOfBudget => True
  | _, _ => False
  end.
Proof.
  revert i stdin. induction fuel as [|fuel IH]; intros i stdin Hcount; simpl.
  - by destruct (lines !! i).
  - destruct (lines !! i) as [l|] eqn:Hl; [|done].
    rewrite (count_drop_S is_start i l Hl) in Hcount.
    destruct (is_start l) eqn:Hstart.
    + destruct (locate lines i) as [b|e|] eqn:Hb; simpl; try done.
      destruct (locate_delimited lines i l b Hl Hstart Hb) as [Hd Hi].
      pose proof (dl_order _ _ Hd) as Hord.
      destruct (prompt_answered stdin ltac:(lia)) as (c & rest & -> & Hrest).
      pose proof (count_drop_le is_start (S i)
                    (S (theirs_end_line (region_at lines b))) ltac:(lia)).
      specialize (IH (S (theirs_end_line (region_at lines b))) rest ltac:(lia)).
      destruct (walk_loop fuel lower lines
                  (S (theirs_end_line (region_at lines b))) rest),
               (scan_loop fuel lines (S (theirs_end_line (region_at lines b))));
        simpl; done.
    + apply IH. simpl in Hcount. lia.
Qed.

End WalkWithPrompts.

(** When the standard input holds at least as many accepted answers as
    the file has lines beginning with the start marker, the walk of
    [resolve_file], searches and prompts together, reaches the end of the
    file exactly when every region it opens is closed, and raises
    [IndexError] otherwise; [EOFError] is not raised. *)
Theorem walk_ends_iff_closed (lower : str -> str) (lines stdin : list str) :
  Interactive.count is_start lines
    <= Interactive.count (Interactive.accepted lower) stdin ->
  match Interactive.walk lower lines stdin with
  | Interactive.Ended _ => Closing.closed lines = true
  | Interactive.IndexErrorRaised => Closing.closed lines = false
  | Interactive.EOFErrorRaised => False
  | Interactive.BudgetUsedUp => False
  end.
Proof.
  intros Hcount. unfold Interactive.walk.
  pose proof (walk_loop_scan lower lines (length lines) 0 stdin) as Hwalk.
  rewrite drop_0 in Hwalk. specialize (Hwalk Hcount).
  pose proof (scan_returns_iff_closed lines) as Hscan.
  unfold scan_lines in Hscan.
  destruct (Interactive.walk_loop (length lines) lower lines 0 stdin),
           (scan_loop (length lines) lines 0); done.
Qed.

Lemma walk_ends_iff_closed_witness :
  Interactive.count is_start (lines_of two_regions)
    <= Interactive.count (Interactive.accepted Prompt.ascii_lower)
         [lit "x"; lit "1"; lit " B "; lit "2"] /\
  Interactive.walk Prompt.ascii_lower (lines_of two_regions)
      [lit "x"; lit "1"; lit " B "; lit "2"]
    = Interactive.Ended [lit "2"] /\
  Closing.closed (lines_of two_regions) = true.
Proof.
  split; [vm_compute; lia|]. split; [vm_compute; reflexivity|].
  pose proof (walk_ends_iff_closed Prompt.ascii_lower (lines_of two_regions)
                [lit "x"; lit "1"; lit " B "; lit "2"]) as H.
  vm_compute in H. apply H. lia.
Defined.

(** Too few answers: the walk ends in [EOFError] on a file whose regions
    are all closed. *)
Example walk_eof :
  Interactive.walk Prompt.ascii_lower (lines_of two_regions) [lit "1"]
    = Interactive.EOFErrorRaised /\
  Closing.closed (lines_of two_regions) = true.
Proof.
  split; vm_compute; reflexivity.
Qed.

(** ** The lines of the file *)

Lemma line_list_nonempty (ls : list str) :
  line_list ls -> Forall (fun l => l <> []) ls.
Proof.
  induction 1 as [|l Hne Hl|l ls Hl _ IH].
  - constructor.
  - by repeat constructor.
  - constructor; [|done]. destruct Hl as (body & b & -> & _).
    by destruct body.
Qed.

Lemma universal_newlines_nil (s : str) : universal_newlines s = [] -> s = [].
Proof.
  destruct s as [|c rest]; [done|]. simpl.
  destruct (c =? CR)%N; [|done].
  destruct rest as [|c' rest']; [done|]. by destruct (c' =? LF)%N.
Qed.

(** The lines [resolve_file] works on, joined, are the text that was
    read: splitting loses nothing.  No line is empty, no line holds a
    carriage return, every line but the last ends in one line break and
    holds no other, and the last either does too or holds none.  There
    are no lines at all exactly when the file is empty. *)
Theorem lines_read (disk : str) :
  join (lines_of disk) = read_text disk /\
  line_list (lines_of disk) /\
  Forall (fun l => l <> [] /\ CR ∉ l) (lines_of disk) /\
  (lines_of disk = [] <-> disk = []).
Proof.
  split; [apply join_splitlines|]. split; [apply lines_of_line_list|]. split.
  - apply Forall_and. split.
    + apply line_list_nonempty, lines_of_line_list.
    + apply lines_of_no_CR.
  - split.
    + intros H. apply universal_newlines_nil.
      change (read_text disk = []). rewrite <- (join_splitlines (read_text disk)).
      unfold lines_of in H. by rewrite H.
    + by intros ->.
Qed.

(** ** The prompt *)

Section PromptFacts.
Import Prompt.

Lemma str_eqb_eq (a b : str) : str_eqb a b = true <-> a = b.
Proof.
  revert b. induction a as [|c a IH]; intros [|d b]; simpl; try done.
  rewrite andb_true_iff, N.eqb_eq, IH. split.
  - by intros [-> ->].
  - by intros [= -> ->].
Qed.

Lemma is_choice_iff (c : str) :
  is_choice c = true <-> c = lit "1" \/ c = lit "2" \/ c = lit "b".
Proof.
  unfold is_choice. rewrite !orb_true_iff, !str_eqb_eq. tauto.
Qed.

Context (lower : str -> str).

(** The prompt loop ends with a choice exactly when some line of the
    standard input, stripped and put in lower case, is ["1"], ["2"] or
    ["b"]: the choice is what the first such line becomes, the lines
    before it have been read and passed over, and the lines after it are
    left unread. *)
Theorem prompt_first_valid (stdin : list str) (c : str) (rest : list str) :
  prompt lower stdin = Chosen c rest <->
  exists passed raw,
    stdin = passed ++ raw :: rest /\
    Forall (fun x => is_choice (lower (strip x)) = false) passed /\
    c = lower (strip raw) /\
    (c = lit "1" \/ c = lit "2" \/ c = lit "b").
Proof.
  split.
  - induction stdin as [|x stdin IH]; simpl; [done|].
    destruct (is_choice (lower (strip x))) eqn:Hx.
    + intros [= <- <-]. exists [], x. repeat split; try done.
      by apply is_choice_iff.
    + intros H. destruct (IH H) as (passed & raw & -> & Hpassed & Hc & Hin).
      exists (x :: passed), raw. repeat split; try done. by constructor.
  - intros (passed & raw & -> & Hpassed & -> & Hin).
    apply is_choice_iff in Hin.
    induction Hpassed as [|x passed Hx _ IH]; simpl.
    + by rewrite Hin.
    + by rewrite Hx.
Qed.

(** The prompt loop ends with [EOFError] exactly when no line of the
    standard input, stripped and put in lower case, is one of the three
    answers; an empty answer in particular is passed over. *)
Theorem prompt_eof (stdin : list str) :
  prompt lower stdin = EOFError <->
  Forall (fun x => is_choice (lower (strip x)) = false) stdin.
Proof.
  induction stdin as [|x stdin IH]; simpl.
  - split; [constructor|done].
  - destruct (is_choice (lower (strip x))) eqn:Hx.
    + split; [done|]. intros H. apply Forall_cons in H as [H _]. congruence.
    + rewrite IH. split; [by constructor|]. by intros [_ ?]%Forall_cons.
Qed.

End PromptFacts.

(** An answer in upper case between blanks is accepted; what precedes it
    is passed over. *)
Example prompt_sample :
  Prompt.prompt Prompt.ascii_lower
    [[]; lit "yes"; lit "  B " ++ [9%N]; lit "1"]
    = Prompt.Chosen (lit "b") [lit "1"].
Proof.
  vm_compute. reflexivity.
Qed.
